(** * ROD marriage-license service: the text pipeline of [trocr_service.py]

    A shallow embedding of the pure part of [TrOCRService]:
    [_calculate_confidence], [_extract_fields_from_text] and the result
    assembly of [extract_marriage_license_fields], together with the
    fragment of Python's [str] methods and of the [re] module they call.

    Conventions.
    - A Python [str] is a list of code points.  The model covers the code
      points below U+0100, one [ascii] each; the character classes
      ([isspace], [isdigit], [isupper], [\w], case mapping) are Python's,
      restricted to that range.  Beyond it the classes of [re] are wider:
      [\d] accepts every decimal digit of Unicode, and under [IGNORECASE] a
      set holding the ASCII letters also accepts U+0130, U+0131, U+017F and
      U+212A.  The lemmas on [letter], [token_char] and [name_char]
      describe the sets within the range; the properties of the extracted
      values are stated through whitespace, lengths, separators, equality
      and occurrence in the text, not through membership in ASCII.
    - A Python [float] is a binary64 primitive float, and [+] is the
      IEEE-754 addition, so sums such as [0.5 + 0.1 + 0.2 + 0.1] are
      computed as CPython computes them.
    - A raised exception is a value of [exn]; a function that can raise
      returns a [result]. *)

From Stdlib Require Import List Bool Arith Lia NArith Ascii String Floats.
Import ListNotations.

Set Warnings "-inexact-float".
Set Implicit Arguments.

(** ** Characters *)

Module Char.

Definition code (c : ascii) : N := N_of_ascii c.

Definition between (lo hi : N) (c : ascii) : bool :=
  (N.leb lo (code c) && N.leb (code c) hi)%bool.

Definition at_code (n : N) (c : ascii) : bool := N.eqb (code c) n.

(** [str.isspace] on one character, which is also the class [\s] of [re]
    on a [str] pattern: TAB..CR, FS..US, SPACE, NEL and NBSP. *)
Definition isspace (c : ascii) : bool :=
  between 9 13 c || between 28 32 c || at_code 133 c || at_code 160 c.

(** The class [\d] of [re] on a [str] pattern: the decimal digits. *)
Definition isdecimal (c : ascii) : bool := between 48 57 c.

(** [str.isdigit] on one character: the decimal digits and the
    superscripts U+00B2, U+00B3 and U+00B9. *)
Definition isdigit (c : ascii) : bool :=
  isdecimal c || at_code 178 c || at_code 179 c || at_code 185 c.

(** [str.isupper] on one character. *)
Definition isupper (c : ascii) : bool :=
  between 65 90 c || between 192 214 c || between 216 222 c.

(** The class [\w] of [re] on a [str] pattern: alphanumerics and [_]. *)
Definition isword (c : ascii) : bool :=
  between 48 57 c || between 65 90 c || at_code 95 c || between 97 122 c
  || at_code 170 c || at_code 178 c || at_code 179 c || at_code 181 c || at_code 185 c || at_code 186 c
  || between 188 190 c || between 192 214 c || between 216 246 c
  || between 248 255 c.

(** [str.lower] on one character. *)
Definition lower (c : ascii) : ascii :=
  if isupper c then ascii_of_N (code c + 32) else c.

(** The simple upper-case mapping [re] uses for [IGNORECASE]; U+00B5 and
    U+00FF map above U+00FF and are left in place. *)
Definition upper (c : ascii) : ascii :=
  if between 97 122 c || between 224 246 c || between 248 254 c
  then ascii_of_N (code c - 32) else c.

End Char.

(** ** Strings *)

Definition str := list ascii.

Definition lit (s : string) : str := list_ascii_of_string s.

Definition str_eq_dec : forall a b : str, {a = b} + {a <> b} :=
  list_eq_dec ascii_dec.

Definition str_eqb (a b : str) : bool :=
  if str_eq_dec a b then true else false.

Module Str.

Fixpoint dropwhile (f : ascii -> bool) (s : str) : str :=
  match s with
  | c :: s' => if f c then dropwhile f s' else s
  | [] => []
  end.

Definition lstrip (s : str) : str := dropwhile Char.isspace s.
Definition rstrip (s : str) : str := rev (dropwhile Char.isspace (rev s)).

(** [s.strip()] *)
Definition strip (s : str) : str := rstrip (lstrip s).

(** [s.lower()] *)
Definition lower (s : str) : str := map Char.lower s.

(** [s.startswith(p)] *)
Fixpoint startswith (p s : str) : bool :=
  match p, s with
  | [], _ => true
  | a :: p', b :: s' => Ascii.eqb a b && startswith p' s'
  | _ :: _, [] => false
  end.

(** [w in s] *)
Fixpoint contains (w s : str) : bool :=
  startswith w s || match s with
                    | [] => false
                    | _ :: s' => contains w s'
                    end.

(** [s.split()]: the maximal runs of non-whitespace characters; [cur] is
    the run being read, last character first. *)
Fixpoint split_from (cur : str) (s : str) : list str :=
  match s with
  | [] => match cur with [] => [] | _ => [rev cur] end
  | c :: s' =>
      if Char.isspace c
      then match cur with
           | [] => split_from [] s'
           | _ => rev cur :: split_from [] s'
           end
      else split_from (c :: cur) s'
  end.

Definition split (s : str) : list str := split_from [] s.

(** [len(set(l))] *)
Definition distinct (l : list str) : nat := List.length (nodup str_eq_dec l).

(** [s.zfill(width)]: zeros go after a leading sign. *)
Definition zfill (width : nat) (s : str) : str :=
  let pad := repeat "0"%char (width - List.length s) in
  match s with
  | c :: s' =>
      if (Ascii.eqb c "+" || Ascii.eqb c "-")%bool
      then c :: pad ++ s'
      else pad ++ s
  | [] => pad
  end.

End Str.

(** ** Exceptions *)

Inductive exn : Type :=
| AttributeError (msg : string)   (* a method looked up on [None] *)
| ReError (msg : string).         (* [re.error]: the pattern does not compile *)

Inductive result (A : Type) : Type :=
| Ok (a : A)
| Raise (e : exn).

Arguments Ok {A} a.
Arguments Raise {A} e.

Definition bind {A B : Type} (x : result A) (f : A -> result B) : result B :=
  match x with
  | Ok a => f a
  | Raise e => Raise e
  end.

Notation "x <- e ;; k" := (bind e (fun x => k))
  (at level 61, e at next level, right associativity).

(** ** The [re] module

    The fragment the service's patterns are written in: literals, the
    classes [\s] and [\d], bracketed sets, groups (capturing or not),
    alternation, [\b], and the quantifiers [*], [+], [?], [{m}], [{m,n}]
    and their lazy forms on a one-character item, [?] also on a group.
    Matching is the backtracking search of [re]: alternatives left to
    right, a greedy quantifier longest first, a lazy one shortest first. *)

Module Re.

(** *** Syntax *)

Inductive item : Type :=
| Lit (c : ascii)
| Range (lo hi : ascii)
| Space                      (* [\s] *)
| Digit.                     (* [\d] *)

Definition cset := list item.

Inductive regex : Type :=
| Eps
| Chars (cs : cset)
| Repeat (cs : cset) (lo : nat) (hi : option nat) (greedy : bool)
| Maybe (r : regex)
| Seq (r1 r2 : regex)
| Or (r1 r2 : regex)
| Group (i : nat) (r : regex)
| WordBoundary.

(** *** Compiling a pattern string *)

Definition is_meta (c : ascii) : bool :=
  existsb (Ascii.eqb c) (lit ".^$*+?{}[]()|\").

Definition is_alnum (c : ascii) : bool :=
  Char.between 48 57 c || Char.between 65 90 c || Char.between 97 122 c.

(** What [\e] stands for, as one character. *)
Definition escape (e : ascii) : option item :=
  if Ascii.eqb e "s" then Some Space
  else if Ascii.eqb e "d" then Some Digit
  else if is_alnum e then None
  else Some (Lit e).

(** The body of a bracketed set, up to and including the closing bracket. *)
Fixpoint set_items (s : str) : option (cset * str) :=
  match s with
  | [] => None
  | "]"%char :: s1 => Some ([], s1)
  | "\"%char :: e :: s1 =>
      match escape e, set_items s1 with
      | Some it, Some (cs, s2) => Some (it :: cs, s2)
      | _, _ => None
      end
  | "\"%char :: [] => None
  | a :: "-"%char :: b :: s1 =>
      if (Ascii.eqb b "]" || Ascii.eqb b "\")%bool then None
      else match set_items s1 with
           | Some (cs, s2) => Some (Range a b :: cs, s2)
           | None => None
           end
  | a :: s1 =>
      match set_items s1 with
      | Some (cs, s2) => Some (Lit a :: cs, s2)
      | None => None
      end
  end.

Fixpoint number (acc : nat) (s : str) : nat * str :=
  match s with
  | c :: s1 =>
      if Char.isdecimal c
      then number (10 * acc + (N.to_nat (Char.code c) - 48)) s1
      else (acc, s)
  | [] => (acc, s)
  end.

(** The bounds of a quantifier at the head of [s], if there is one. *)
Definition bounds (s : str) : option (nat * option nat * str) :=
  match s with
  | "*"%char :: s1 => Some (0, None, s1)
  | "+"%char :: s1 => Some (1, None, s1)
  | "?"%char :: s1 => Some (0, Some 1, s1)
  | "{"%char :: s1 =>
      match number 0 s1 with
      | (lo, "}"%char :: s2) => Some (lo, Some lo, s2)
      | (lo, ","%char :: s2) =>
          match number 0 s2 with
          | (hi, "}"%char :: s3) => Some (lo, Some hi, s3)
          | _ => None
          end
      | _ => None
      end
  | _ => None
  end.

(** An item followed by its quantifier, if any. *)
Definition quantify (a : regex) (s : str) : option (regex * str) :=
  match bounds s with
  | None => Some (a, s)
  | Some (lo, hi, s1) =>
      let (greedy, s2) :=
        match s1 with
        | "?"%char :: t => (false, t)
        | _ => (true, s1)
        end in
      match a, lo, hi, greedy with
      | Chars cs, _, _, _ => Some (Repeat cs lo hi greedy, s2)
      | Group i r, 0, Some 1, true => Some (Maybe (Group i r), s2)
      | _, _, _, _ => None
      end
  end.

Definition seq (r1 r2 : regex) : regex :=
  match r2 with
  | Eps => r1
  | _ => Seq r1 r2
  end.

(** [n] is the number the next capturing group gets. *)
Fixpoint alternation (fuel n : nat) (s : str) : option (regex * nat * str) :=
  match fuel with
  | 0 => None
  | S fuel =>
      match sequence fuel n s with
      | Some (r1, n1, "|"%char :: s1) =>
          match alternation fuel n1 s1 with
          | Some (r2, n2, s2) => Some (Or r1 r2, n2, s2)
          | None => None
          end
      | other => other
      end
  end
with sequence (fuel n : nat) (s : str) : option (regex * nat * str) :=
  match fuel with
  | 0 => None
  | S fuel =>
      match s with
      | [] | ")"%char :: _ | "|"%char :: _ => Some (Eps, n, s)
      | _ =>
          match atom fuel n s with
          | Some (a, n1, s1) =>
              match quantify a s1 with
              | Some (q, s2) =>
                  match sequence fuel n1 s2 with
                  | Some (r, n2, s3) => Some (seq q r, n2, s3)
                  | None => None
                  end
              | None => None
              end
          | None => None
          end
      end
  end
with atom (fuel n : nat) (s : str) : option (regex * nat * str) :=
  match fuel with
  | 0 => None
  | S fuel =>
      match s with
      | "("%char :: "?"%char :: ":"%char :: s1 =>
          match alternation fuel n s1 with
          | Some (r, n1, ")"%char :: s2) => Some (r, n1, s2)
          | _ => None
          end
      | "("%char :: "?"%char :: _ => None
      | "("%char :: s1 =>
          match alternation fuel (S n) s1 with
          | Some (r, n1, ")"%char :: s2) => Some (Group n r, n1, s2)
          | _ => None
          end
      | "["%char :: "^"%char :: _ => None
      | "["%char :: s1 =>
          match set_items s1 with
          | Some (cs, s2) => Some (Chars cs, n, s2)
          | None => None
          end
      | "\"%char :: "b"%char :: s1 => Some (WordBoundary, n, s1)
      | "\"%char :: e :: s1 =>
          match escape e with
          | Some it => Some (Chars [it], n, s1)
          | None => None
          end
      | c :: s1 => if is_meta c then None else Some (Chars [Lit c], n, s1)
      | [] => None
      end
  end.

(** [re.compile(pattern)], or nothing for a pattern outside the fragment. *)
Definition compile (pattern : str) : option regex :=
  match alternation (4 * (List.length pattern + 1)) 1 pattern with
  | Some (r, _, []) => Some r
  | _ => None
  end.

(** *** Matching *)

Definition item_has (it : item) (c : ascii) : bool :=
  match it with
  | Lit a => Ascii.eqb a c
  | Range lo hi => Char.between (Char.code lo) (Char.code hi) c
  | Space => Char.isspace c
  | Digit => Char.isdecimal c
  end.

Definition cset_has (cs : cset) (c : ascii) : bool :=
  existsb (fun it => item_has it c) cs.

(** One character against a set; under [IGNORECASE] either case variant
    of the character may belong to the set. *)
Definition accepts (icase : bool) (cs : cset) (c : ascii) : bool :=
  if icase
  then cset_has cs (Char.lower c) || cset_has cs (Char.upper c)
  else cset_has cs c.

(** The groups that took part in a match, latest binding first. *)
Definition caps := list (nat * str).

Fixpoint group (m : caps) (i : nat) : option str :=
  match m with
  | [] => None
  | (j, g) :: m' => if (i =? j)%nat then Some g else group m' i
  end.

Definition room (hi : option nat) : bool :=
  match hi with
  | Some 0 => false
  | _ => true
  end.

Definition isword_at (c : option ascii) : bool :=
  match c with
  | Some c => Char.isword c
  | None => false
  end.

Section Matcher.

Variable icase : bool.
Variable A : Type.

(** [cs{lo,hi}] at [s], where [prev] is the character before [s]; [k]
    continues after the repetition. *)
Fixpoint repetition (cs : cset) (greedy : bool) (lo : nat) (hi : option nat)
    (prev : option ascii) (s : str)
    (k : option ascii -> str -> option A) {struct s} : option A :=
  match s with
  | c :: s' =>
      if room hi && accepts icase cs c
      then
        if greedy
        then
          match repetition cs greedy (pred lo) (option_map pred hi) (Some c) s' k with
          | Some x => Some x
          | None => match lo with 0 => k prev s | S _ => None end
          end
        else
          match match lo with 0 => k prev s | S _ => None end with
          | Some x => Some x
          | None =>
              repetition cs greedy (pred lo) (option_map pred hi) (Some c) s' k
          end
      else match lo with 0 => k prev s | S _ => None end
  | [] => match lo with 0 => k prev s | S _ => None end
  end.

(** [r] at [s] with the groups [m] bound so far; [k] continues with the
    character before the rest, the rest and the groups. *)
Fixpoint run (r : regex) (prev : option ascii) (s : str) (m : caps)
    (k : option ascii -> str -> caps -> option A) {struct r} : option A :=
  match r with
  | Eps => k prev s m
  | Chars cs =>
      match s with
      | c :: s' => if accepts icase cs c then k (Some c) s' m else None
      | [] => None
      end
  | Repeat cs lo hi greedy =>
      repetition cs greedy lo hi prev s (fun prev' s' => k prev' s' m)
  | Maybe r' =>
      match run r' prev s m k with
      | Some x => Some x
      | None => k prev s m
      end
  | Seq r1 r2 =>
      run r1 prev s m (fun prev' s' m' => run r2 prev' s' m' k)
  | Or r1 r2 =>
      match run r1 prev s m k with
      | Some x => Some x
      | None => run r2 prev s m k
      end
  | Group i r' =>
      run r' prev s m
        (fun prev' s' m' =>
           k prev' s' ((i, firstn (List.length s - List.length s') s) :: m'))
  | WordBoundary =>
      if xorb (isword_at prev) (isword_at (hd_error s)) then k prev s m
      else None
  end.

End Matcher.

(** A match of [r] that starts at [s]: its groups, its last character (or
    [prev]) and the text after it.  With [must_advance] an empty match is
    refused, as [re] does right after an empty match. *)
Definition match_here (icase : bool) (r : regex) (must_advance : bool)
    (prev : option ascii) (s : str) : option (caps * option ascii * str) :=
  run icase r prev s []
    (fun prev' s' m =>
       if must_advance && (List.length s' =? List.length s)%nat then None
       else Some (m, prev', s')).

(** The leftmost match at or after [s]. *)
Fixpoint search_from (icase : bool) (r : regex) (prev : option ascii)
    (s : str) : option caps :=
  match match_here icase r false prev s with
  | Some (m, _, _) => Some m
  | None =>
      match s with
      | c :: s' => search_from icase r (Some c) s'
      | [] => None
      end
  end.

(** The successive non-overlapping matches from [s] on, after skipping
    [skip] characters (the rest of the match just found). *)
Fixpoint matches_from (icase : bool) (r : regex) (skip : nat)
    (prev : option ascii) (s : str) : list caps :=
  let next n :=
    match s with
    | c :: s' => matches_from icase r n (Some c) s'
    | [] => []
    end in
  match skip with
  | S n => next n
  | 0 =>
      match match_here icase r false prev s with
      | None => next 0
      | Some (m, _, s1) =>
          match List.length s - List.length s1 with
          | S n => m :: next n
          | 0 =>
              m :: match match_here icase r true prev s with
                   | Some (m2, _, s2) =>
                       m2 :: next (pred (List.length s - List.length s2))
                   | None => next 0
                   end
          end
      end
  end.

(** The character before position [i] of [text]. *)
Definition char_before (text : str) (i : nat) : option ascii :=
  match i with
  | 0 => None
  | S j => nth_error text j
  end.

(** The last character of [w], or [prev] when [w] is empty. *)
Definition last_of (prev : option ascii) (w : str) : option ascii :=
  fold_left (fun _ c => Some c) w prev.

(** *** Matching, as a relation

    [matched icase r prev s m prev' s' m'] : from the text [s], preceded
    by [prev] and with the groups [m] bound, [r] can consume a prefix of
    [s] and leave [s'], preceded by [prev'], with the groups [m']. *)
Inductive matched (icase : bool)
  : regex -> option ascii -> str -> caps -> option ascii -> str -> caps -> Prop :=
| M_Eps prev s m :
    matched icase Eps prev s m prev s m
| M_Chars cs c prev s m :
    accepts icase cs c = true ->
    matched icase (Chars cs) prev (c :: s) m (Some c) s m
| M_Repeat cs lo hi greedy w prev s m :
    Forall (fun c => accepts icase cs c = true) w ->
    lo <= List.length w ->
    (forall n, hi = Some n -> List.length w <= n) ->
    matched icase (Repeat cs lo hi greedy) prev (w ++ s) m (last_of prev w) s m
| M_Maybe_taken r prev s m prev' s' m' :
    matched icase r prev s m prev' s' m' ->
    matched icase (Maybe r) prev s m prev' s' m'
| M_Maybe_skipped r prev s m :
    matched icase (Maybe r) prev s m prev s m
| M_Seq r1 r2 prev s m prev1 s1 m1 prev2 s2 m2 :
    matched icase r1 prev s m prev1 s1 m1 ->
    matched icase r2 prev1 s1 m1 prev2 s2 m2 ->
    matched icase (Seq r1 r2) prev s m prev2 s2 m2
| M_Or_left r1 r2 prev s m prev' s' m' :
    matched icase r1 prev s m prev' s' m' ->
    matched icase (Or r1 r2) prev s m prev' s' m'
| M_Or_right r1 r2 prev s m prev' s' m' :
    matched icase r2 prev s m prev' s' m' ->
    matched icase (Or r1 r2) prev s m prev' s' m'
| M_Group i r prev s m prev' s' m' :
    matched icase r prev s m prev' s' m' ->
    matched icase (Group i r) prev s m prev' s'
      ((i, firstn (List.length s - List.length s') s) :: m')
| M_WordBoundary prev s m :
    xorb (isword_at prev) (isword_at (hd_error s)) = true ->
    matched icase WordBoundary prev s m prev s m.

(** The set a pattern's closing group repeats at least once, with the
    number of that group, when the pattern ends in such a group. *)
Fixpoint closing_group (r : regex) : option (nat * cset) :=
  match r with
  | Seq _ r2 => closing_group r2
  | Group i (Repeat cs (S _) _ _) => Some (i, cs)
  | _ => None
  end.

Definition IGNORECASE : bool := true.

Definition compiled (pattern : str) : result regex :=
  match compile pattern with
  | Some r => Ok r
  | None => Raise (ReError "unsupported pattern")
  end.

(** [re.search(pattern, text, flags)]: the match object, or [None]. *)
Definition search (pattern text : str) (flags : bool) : result (option caps) :=
  r <- compiled pattern ;; Ok (search_from flags r None text).

(** [re.findall(pattern, text, flags)] for a pattern with one group: the
    text of the group in each match, empty where it took no part. *)
Definition findall (pattern text : str) (flags : bool) : result (list str) :=
  r <- compiled pattern ;;
  Ok (map (fun m => match group m 1 with Some g => g | None => [] end)
          (matches_from flags r 0 None text)).

(** [re.compile(pattern, flags).match(text, i)]: the match that starts at
    position [i], or [None]. *)
Definition match_at (pattern text : str) (flags : bool) (i : nat)
  : result (option caps) :=
  r <- compiled pattern ;;
  Ok (option_map (fun x => fst (fst x))
        (match_here flags r false (char_before text i) (skipn i text))).

End Re.

(** ** Floats *)

Module Py.

Local Open Scope float_scope.

(** [max(a, b)] and [min(a, b)] of two floats: the first argument is kept
    unless the second is strictly beyond it. *)
Definition max (a b : float) : float := if PrimFloat.ltb a b then b else a.
Definition min (a b : float) : float := if PrimFloat.ltb b a then b else a.

End Py.

(** ** The confidence estimator *)

Definition keywords : list str :=
  [lit "marriage"; lit "license"; lit "application"; lit "affidavit"].

Local Open Scope float_scope.

(** [TrOCRService._calculate_confidence] *)
Definition _calculate_confidence (text : str) : float :=
  if match text with [] => true | _ => false end
     || (List.length (Str.strip text) =? 0)%nat
  then 0.0
  else
    let confidence := 0.5 in
    let confidence :=
      if (10 <? List.length text)%nat then confidence + 0.1 else confidence in
    let confidence :=
      if (50 <? List.length text)%nat then confidence + 0.1 else confidence in
    let confidence :=
      if existsb (fun word => Str.contains word (Str.lower text)) keywords
      then confidence + 0.2 else confidence in
    let confidence :=
      if existsb Char.isdigit text then confidence + 0.1 else confidence in
    let confidence :=
      if existsb Char.isupper text then confidence + 0.1 else confidence in
    let confidence :=
      if (List.length text <? 5)%nat then confidence - 0.2 else confidence in
    let confidence :=
      if (Str.distinct (Str.split text) <? 3)%nat
         && (5 <? List.length (Str.split text))%nat
      then confidence - 0.1 else confidence in
    Py.min 1.0 (Py.max 0.0 confidence).

(** ** The data model *)

(** [{'value': ..., 'confidence': ...}] *)
Record FieldValue : Type := {
  value : str;
  confidence : float
}.

Definition no_field : FieldValue := {| value := []; confidence := 0.0 |}.

(** The dictionary [_extract_fields_from_text] returns. *)
Record Fields : Type := {
  license_number : FieldValue;
  name_spouse1 : FieldValue;
  name_spouse2 : FieldValue;
  marriage_date : FieldValue
}.

(** The dictionary [extract_text_from_image] returns. *)
Record TranscriptionOutcome : Type := {
  o_text : str;
  o_confidence : float;
  o_success : bool;
  o_error : option str
}.

(** The dictionary [extract_marriage_license_fields] returns. *)
Record ExtractionResult : Type := {
  fields : Fields;
  raw_text : str;
  success : bool;
  error : option str
}.

(** ** The field extractor *)

(** [o.name(...)] where [o] is a [str] or [None]. *)
Definition method {A : Type} (name : string) (f : str -> A) (o : option str)
  : result A :=
  match o with
  | Some s => Ok (f s)
  | None => Raise (AttributeError name)
  end.

(** [o] inside an f-string. *)
Definition fmt (o : option str) : str :=
  match o with
  | Some s => s
  | None => lit "None"
  end.

(** [for pattern in patterns: match = re.search(...); if match: ... break]:
    the first pattern that matches, with its match object. *)
Fixpoint first_match (patterns : list str) (text : str)
  : result (option (str * Re.caps)) :=
  match patterns with
  | [] => Ok None
  | pattern :: rest =>
      found <- Re.search pattern text Re.IGNORECASE ;;
      match found with
      | Some m => Ok (Some (pattern, m))
      | None => first_match rest text
      end
  end.

Definition license_patterns : list str :=
  [ lit "application\s*no\.?\s*([a-z0-9\-]+)";
    lit "license\s*(?:no\.|number)\s*[:#]?\s*([a-z0-9\-]+)";
    lit "no\.?\s*([0-9]+)" ].

(** Lines 184-198: the license number. *)
Definition license_field (text : str) (base_confidence : float)
  : result FieldValue :=
  found <- first_match license_patterns text ;;
  match found with
  | Some (_, m) =>
      v <- method "strip" Str.strip (Re.group m 1) ;;
      Ok {| value := v; confidence := base_confidence + 0.1 |}
  | None => Ok no_field
  end.

Definition name_patterns : list str :=
  [ lit "I[, ]+([A-Za-z\s]+?)(?:,|\sof|\sdesir|\sdo\b)";
    lit "Miss\s+([A-Za-z\s]+?)(?:,|\sof|\sdo\b)";
    lit "Mr\.?\s+([A-Za-z\s]+?)(?:,|\sof|\sdo\b)" ].

(** The body of the inner loop: [name = match.strip()] and
    [if len(name) > 2 and name not in names: names.append(name)]. *)
Definition keep (names : list str) (found : str) : list str :=
  let name := Str.strip found in
  if (2 <? List.length name)%nat && negb (existsb (str_eqb name) names)
  then names ++ [name]
  else names.

(** The outer loop over the name patterns. *)
Fixpoint collect_names (patterns : list str) (text : str) (names : list str)
  : result (list str) :=
  match patterns with
  | [] => Ok names
  | pattern :: rest =>
      found <- Re.findall pattern text Re.IGNORECASE ;;
      collect_names rest text (fold_left keep found names)
  end.

(** [if len(names) >= n + 1: fields[...] = {names[n], base + 0.1}] *)
Definition name_field (n : nat) (names : list str) (base_confidence : float)
  : FieldValue :=
  if (n + 1 <=? List.length names)%nat
  then {| value := nth n names []; confidence := base_confidence + 0.1 |}
  else no_field.

Definition date_patterns : list str :=
  [ lit "day\s+of\s+([A-Za-z]+)\s+(\d{1,2})?,?\s*(\d{4})";
    lit "(\d{1,2})[-\/.](\d{1,2})[-\/.](\d{4})";
    lit "(\d{4})[-\/.](\d{1,2})[-\/.](\d{1,2})";
    lit "([A-Za-z]+)\s+(\d{1,2}),?\s*(\d{4})" ].

(** [x or '01'] *)
Definition or_01 (o : option str) : str :=
  match o with
  | Some (c :: s) => c :: s
  | _ => lit "01"
  end.

(** Lines 237-245: the normalised date for the pattern that matched. *)
Definition date_value (pattern : str) (m : Re.caps) : result str :=
  if Str.contains (lit "day of") pattern then
    let month := Re.group m 1 in
    let day := or_01 (Re.group m 2) in
    let year := Re.group m 3 in
    Ok (fmt year ++ lit "-" ++ fmt month ++ lit "-" ++ Str.zfill 2 day)
  else if Str.startswith (lit "(\d{4})") pattern then
    g2 <- method "zfill" (Str.zfill 2) (Re.group m 2) ;;
    g3 <- method "zfill" (Str.zfill 2) (Re.group m 3) ;;
    Ok (fmt (Re.group m 1) ++ lit "-" ++ g2 ++ lit "-" ++ g3)
  else
    g1 <- method "zfill" (Str.zfill 2) (Re.group m 1) ;;
    g2 <- method "zfill" (Str.zfill 2) (Re.group m 2) ;;
    Ok (fmt (Re.group m 3) ++ lit "-" ++ g1 ++ lit "-" ++ g2).

(** Lines 226-251: the marriage date. *)
Definition date_field (text : str) (base_confidence : float)
  : result FieldValue :=
  found <- first_match date_patterns text ;;
  match found with
  | Some (pattern, m) =>
      v <- date_value pattern m ;;
      Ok {| value := v; confidence := base_confidence + 0.1 |}
  | None => Ok no_field
  end.

(** [TrOCRService._extract_fields_from_text] *)
Definition _extract_fields_from_text (text : str) (base_confidence : float)
  : result Fields :=
  license <- license_field text base_confidence ;;
  names <- collect_names name_patterns text [] ;;
  date <- date_field text base_confidence ;;
  Ok {| license_number := license;
        name_spouse1 := name_field 0 names base_confidence;
        name_spouse2 := name_field 1 names base_confidence;
        marriage_date := date |}.

(** ** The result assembler *)

(** [extract_marriage_license_fields] from line 151 on, given what
    [extract_text_from_image] returned; [extract] is the method
    [self._extract_fields_from_text]. *)
Definition assemble (extract : str -> float -> result Fields)
    (outcome : TranscriptionOutcome) : result ExtractionResult :=
  if negb (o_success outcome) then
    Ok {| fields := {| license_number := no_field;
                       name_spouse1 := no_field;
                       name_spouse2 := no_field;
                       marriage_date := no_field |};
          raw_text := o_text outcome;
          success := false;
          error := o_error outcome |}
  else
    let text := o_text outcome in
    let base_confidence := o_confidence outcome in
    extracted <- extract text base_confidence ;;
    Ok {| fields := extracted;
          raw_text := text;
          success := true;
          error := None |}.

(** ** The service

    The TrOCR processor and model are outside the embedding: [loaded]
    tells whether [load_model] has set them, and [generate] stands for
    lines 67-88, giving the decoded text or the message of the exception
    they raise. *)

Section Service.

Variable image : Type.
Variable loaded : bool.
Variable generate : image -> str + str.

(** [TrOCRService.extract_text_from_image] *)
Definition extract_text_from_image (image_path : image)
  : TranscriptionOutcome :=
  if negb loaded then
    {| o_text := [];
       o_confidence := 0.0;
       o_success := false;
       o_error := Some (lit "TrOCR model not loaded") |}
  else
    match generate image_path with
    | inl generated_text =>
        let confidence := _calculate_confidence generated_text in
        {| o_text := Str.strip generated_text;
           o_confidence := confidence;
           o_success := true;
           o_error := None |}
    | inr message =>
        {| o_text := [];
           o_confidence := 0.0;
           o_success := false;
           o_error := Some message |}
    end.

(** [TrOCRService.extract_marriage_license_fields] *)
Definition extract_marriage_license_fields (image_path : image)
  : result ExtractionResult :=
  assemble _extract_fields_from_text (extract_text_from_image image_path).

End Service.

(** ** Vocabulary of the properties *)

(** The pairing of a field: an empty value carries confidence 0.0. *)
Definition paired (fv : FieldValue) : Prop :=
  value fv = [] -> confidence fv = 0.0.

Definition all_paired (f : Fields) : Prop :=
  paired (license_number f) /\ paired (name_spouse1 f)
  /\ paired (name_spouse2 f) /\ paired (marriage_date f).

(** A name the inner loop may keep: more than two characters. *)
Definition long_enough (name : str) : Prop := (2 < List.length name)%nat.

(** *** The name extractor, as the specification words it *)

(** All the matches of the patterns, in pattern-then-match order. *)
Fixpoint all_matches (patterns : list str) (text : str) : result (list str) :=
  match patterns with
  | [] => Ok []
  | pattern :: rest =>
      found <- Re.findall pattern text Re.IGNORECASE ;;
      more <- all_matches rest text ;;
      Ok (found ++ more)
  end.

(** Order-preserving de-duplication by exact string equality: the first
    occurrence of each string stays. *)
Fixpoint unique (l : list str) : list str :=
  match l with
  | [] => []
  | x :: l' => x :: filter (fun y => negb (str_eqb x y)) (unique l')
  end.

(** Trim each candidate, keep those of trimmed length > 2, once each. *)
Definition kept_names (candidates : list str) : list str :=
  unique (filter (fun name => (2 <? List.length name)%nat)
                 (map Str.strip candidates)).

(** The [n]-th kept candidate with confidence [base + 0.1], or the
    unfilled slot. *)
Definition slot (n : nat) (kept : list str) (base_confidence : float)
  : FieldValue :=
  match nth_error kept n with
  | Some name => {| value := name; confidence := base_confidence + 0.1 |}
  | None => no_field
  end.

(** [y not in names] *)
Definition fresh (names : list str) (y : str) : bool :=
  negb (existsb (str_eqb y) names).

(** The text [s] is empty or starts with a character outside [cs]. *)
Definition rejected (icase : bool) (cs : Re.cset) (s : str) : Prop :=
  match s with
  | c :: _ => Re.accepts icase cs c = false
  | [] => True
  end.

(** *** The compiled form of two patterns *)

(** [re.compile(pattern)] does not raise. *)
Definition compiles (pattern : str) : bool :=
  match Re.compile pattern with
  | Some _ => true
  | None => false
  end.

Definition compiled_or_eps (pattern : str) : Re.regex :=
  match Re.compile pattern with
  | Some r => r
  | None => Re.Eps
  end.

(** The third license pattern, [no\.?\s*([0-9]+)]. *)
Definition license_regex_3 : Re.regex :=
  Eval vm_compute in compiled_or_eps (nth 2 license_patterns []).

(** The first name pattern, [I[, ]+([A-Za-z\s]+?)(?:,|\sof|\sdesir|\sdo\b)]. *)
Definition name_regex_1 : Re.regex :=
  Eval vm_compute in compiled_or_eps (nth 0 name_patterns []).

(** *** Groups of a pattern *)

(** The capturing groups of [r] that repeat a set, each with its set and
    its bounds. *)
Fixpoint groups_of (r : Re.regex)
  : list (nat * (Re.cset * nat * option nat)) :=
  match r with
  | Re.Group i (Re.Repeat cs lo hi _) => [(i, (cs, lo, hi))]
  | Re.Group _ r' => groups_of r'
  | Re.Maybe r' => groups_of r'
  | Re.Seq r1 r2 => groups_of r1 ++ groups_of r2
  | Re.Or r1 r2 => groups_of r1 ++ groups_of r2
  | _ => []
  end.

(** Every capturing group of [r] repeats a set. *)
Fixpoint plain_groups (r : Re.regex) : bool :=
  match r with
  | Re.Group _ (Re.Repeat _ _ _ _) => true
  | Re.Group _ _ => false
  | Re.Maybe r' => plain_groups r'
  | Re.Seq r1 r2 => plain_groups r1 && plain_groups r2
  | Re.Or r1 r2 => plain_groups r1 && plain_groups r2
  | _ => true
  end.

(** Group [i] takes part in every match of [r]. *)
Fixpoint binds (i : nat) (r : Re.regex) : bool :=
  match r with
  | Re.Group j r' => (i =? j)%nat || binds i r'
  | Re.Seq r1 r2 => binds i r1 || binds i r2
  | Re.Or r1 r2 => binds i r1 && binds i r2
  | _ => false
  end.

(** The set [[A-Za-z]]. *)
Definition letters : Re.cset := [Re.Range "A" "Z"; Re.Range "a" "z"].

(** An ASCII letter. *)
Definition letter (c : ascii) : bool :=
  Char.between 65 90 c || Char.between 97 122 c.

(** A character of a license token: an ASCII letter, a digit or a hyphen. *)
Definition token_char (c : ascii) : bool :=
  letter c || Char.isdecimal c || Ascii.eqb c "-".

(** The shape of a normalised date: a four-digit year, a month field of
    at least two letters or digits, a two-digit day field, joined by
    hyphens. *)
Definition date_shaped (v : str) : Prop :=
  exists year month day,
    v = year ++ lit "-" ++ month ++ lit "-" ++ day
    /\ List.length year = 4%nat
    /\ Forall (fun c => Char.isdecimal c = true) year
    /\ (2 <= List.length month)%nat
    /\ Forall (fun c => Re.is_alnum c = true) month
    /\ List.length day = 2%nat
    /\ Forall (fun c => Char.isdecimal c = true) day.

(** A character a name may hold: an ASCII letter or whitespace. *)
Definition name_char (c : ascii) : bool := letter c || Char.isspace c.

(** A character that can stand inside one field of a date value: it is
    neither whitespace nor the hyphen that joins the fields. *)
Definition field_char (c : ascii) : bool :=
  negb (Char.isspace c) && negb (Ascii.eqb c "-").

(** A date value read field by field: three fields joined by two hyphens, of
    4, at least 2, and 2 characters, no field holding a hyphen or
    whitespace. *)
Definition date_fields (v : str) : Prop :=
  exists year month day,
    v = year ++ lit "-" ++ month ++ lit "-" ++ day
    /\ List.length year = 4%nat
    /\ (2 <= List.length month)%nat
    /\ List.length day = 2%nat
    /\ Forall (fun c => field_char c = true) (year ++ month ++ day).

(** A character that is no decimal digit, comma or period. *)
Definition plain_char (c : ascii) : bool :=
  negb (Char.isdecimal c || Ascii.eqb c "," || Ascii.eqb c ".").

(** A name as the loop keeps it: trimming leaves it as it is, it begins and
    ends with a character that is not whitespace, with at least one
    character in between, and it holds no digit, comma or period. *)
Definition name_trimmed (v : str) : Prop :=
  Str.strip v = v
  /\ (exists a mid z,
         v = a :: mid ++ [z]
         /\ Char.isspace a = false /\ Char.isspace z = false /\ mid <> [])
  /\ Forall (fun c => plain_char c = true) v.

(** What the loop keeps of each name: it is trimmed, longer than two
    characters, and made of letters and whitespace. *)
Definition kept_ok (v : str) : Prop :=
  long_enough v /\ Forall (fun c => name_char c = true) v /\ Str.strip v = v.

(** [not text or len(text.strip()) == 0] *)
Definition blank_test (text : str) : bool :=
  match text with [] => true | _ => false end
  || (List.length (Str.strip text) =? 0)%nat.

(** The values of the four fields, or the exception. *)
Definition values_of (x : result Fields) : result (str * str * str * str) :=
  f <- x ;;
  Ok (value (license_number f), value (name_spouse1 f),
      value (name_spouse2 f), value (marriage_date f)).


Definition no_fields : Fields :=
  {| license_number := no_field; name_spouse1 := no_field;
     name_spouse2 := no_field; marriage_date := no_field |}.

(** [g] is a contiguous part of [s]: [g in s]. *)
Definition occurs_in (g s : str) : Prop := exists a b, s = a ++ g ++ b.

(** * Properties *)

(** ** The library fragment on sample inputs *)

Example isspace_table :
  filter Char.isspace (map ascii_of_nat (seq 0 256))
  = map ascii_of_nat [9; 10; 11; 12; 13; 28; 29; 30; 31; 32; 133; 160]%nat.
Proof. vm_compute. reflexivity. Qed.

Example token_set_ignoring_case :
  filter (Re.accepts true [Re.Range "a" "z"; Re.Range "0" "9"; Re.Lit "-"])
         (map ascii_of_nat (seq 0 256))
  = lit "-0123456789ABCDEFGHIJKLMNOPQRSTUVWXYZabcdefghijklmnopqrstuvwxyz".
Proof. vm_compute. reflexivity. Qed.

Example split_sample :
  Str.split (lit "  ab  c d ") = [lit "ab"; lit "c"; lit "d"].
Proof. reflexivity. Qed.

Example zfill_samples :
  Str.zfill 2 (lit "7") = lit "07" /\ Str.zfill 2 (lit "June") = lit "June"
  /\ Str.zfill 3 (lit "-5") = lit "-05" /\ Str.zfill 2 [] = lit "00".
Proof. repeat split. Qed.

Example search_numeric_date :
  Re.search (nth 1 date_patterns []) (lit "on 06/15/1950.") Re.IGNORECASE
  = Ok (Some [(3%nat, lit "1950"); (2%nat, lit "15"); (1%nat, lit "06")]).
Proof. vm_compute. reflexivity. Qed.

Example findall_lazy_names :
  Re.findall (nth 0 name_patterns [])
    (lit "I, Jane Doe, of Troy; I Bob Ray dot, I  Sue do") Re.IGNORECASE
  = Ok [lit "Jane Doe"; lit "Bob Ray dot"; lit "Sue"].
Proof. vm_compute. reflexivity. Qed.

(** ** The confidence estimator *)

Ltac split_ifs :=
  repeat match goal with
         | |- context [if ?c then _ else _] => destruct c
         end.

Lemma dropwhile_all (f : ascii -> bool) (s : str) :
  Forall (fun c => f c = true) s -> Str.dropwhile f s = [].
Proof.
  induction 1 as [|c s Hc _ IH]; simpl; [reflexivity|].
  rewrite Hc. exact IH.
Qed.

Lemma strip_blank (s : str) :
  Forall (fun c => Char.isspace c = true) s -> Str.strip s = [].
Proof.
  intros H. unfold Str.strip, Str.lstrip, Str.rstrip.
  rewrite (dropwhile_all _ H). reflexivity.
Qed.

(** C3.  The confidence estimator returns a value between 0.0 and 1.0
    inclusive, whatever the text: the sum of the bonuses and penalties is
    clamped. *)
Theorem confidence_bounds (text : str) :
  (0.0 <=? _calculate_confidence text) = true
  /\ (_calculate_confidence text <=? 1.0) = true.
Proof.
  unfold _calculate_confidence.
  destruct (match text with [] => true | _ :: _ => false end
            || (List.length (Str.strip text) =? 0)%nat).
  - split; reflexivity.
  - cbv zeta. split_ifs; split; vm_compute; reflexivity.
Qed.

(** C8.  On a text that is empty or made of whitespace only, the
    estimator returns 0.0 at once: no base score, bonus or penalty
    applies. *)
Theorem blank_text_confidence (text : str) :
  Forall (fun c => Char.isspace c = true) text ->
  _calculate_confidence text = 0.0.
Proof.
  intros H. unfold _calculate_confidence.
  rewrite (strip_blank H). simpl. rewrite orb_true_r. reflexivity.
Qed.

Lemma blank_text_confidence_witness :
  Forall (fun c => Char.isspace c = true) (lit "   ")
  /\ _calculate_confidence (lit "   ") = 0.0
  /\ _calculate_confidence (lit "") = 0.0.
Proof.
  split; [repeat constructor|].
  split; [apply (@blank_text_confidence (lit "   "))
         |apply (@blank_text_confidence (lit ""))];
    repeat constructor.
Defined.

(** ** The matcher is sound for the relation *)

Section Soundness.

Variable icase : bool.
Variable A : Type.

Lemma repetition_sound cs greedy (s : str) :
  forall lo hi prev (k : option ascii -> str -> option A) x,
    Re.repetition icase cs greedy lo hi prev s k = Some x ->
    exists w s',
      s = w ++ s'
      /\ Forall (fun c => Re.accepts icase cs c = true) w
      /\ lo <= List.length w
      /\ (forall n, hi = Some n -> List.length w <= n)
      /\ k (Re.last_of prev w) s' = Some x.
Proof.
  assert (Hstop' : forall lo hi prev (s0 : str) (k : option ascii -> str -> option A) x,
             match lo with 0 => k prev s0 | S _ => None end = Some x ->
             exists w s',
               s0 = w ++ s'
               /\ Forall (fun c => Re.accepts icase cs c = true) w
               /\ lo <= List.length w
               /\ (forall n : nat, hi = Some n -> List.length w <= n)
               /\ k (Re.last_of prev w) s' = Some x).
  { intros lo hi prev s0 k x H. destruct lo; [|discriminate].
    exists [], s0. simpl. repeat split; auto. intros; lia. }
  induction s as [|c s IH]; intros lo hi prev k x H; simpl in H.
  - apply Hstop'; exact H.
  - destruct (Re.room hi && Re.accepts icase cs c) eqn:Hc;
      [|apply Hstop'; exact H].
    apply andb_prop in Hc. destruct Hc as [Hroom Hacc].
    assert (Hmore : Re.repetition icase cs greedy (pred lo) (option_map pred hi)
                      (Some c) s k = Some x ->
                    exists w s',
                      c :: s = w ++ s'
                      /\ Forall (fun c => Re.accepts icase cs c = true) w
                      /\ lo <= List.length w
                      /\ (forall n, hi = Some n -> List.length w <= n)
                      /\ k (Re.last_of prev w) s' = Some x).
    { intros Hrec. apply IH in Hrec.
      destruct Hrec as (w & s' & -> & Hall & Hlo & Hhi & Hk).
      exists (c :: w), s'. simpl. repeat split; auto.
      - lia.
      - intros n ->. destruct n; [discriminate|].
        specialize (Hhi n eq_refl). lia. }
    destruct greedy.
    + destruct (Re.repetition icase cs true (pred lo) (option_map pred hi)
                  (Some c) s k) eqn:Hrec.
      * inversion H; subst. apply Hmore. reflexivity.
      * apply Hstop'; exact H.
    + destruct (match lo with 0 => k prev (c :: s) | S _ => None end) eqn:Hs.
      * inversion H; subst. apply Hstop'; exact Hs.
      * apply Hmore; exact H.
Qed.

Lemma run_sound (r : Re.regex) :
  forall prev s m (k : option ascii -> str -> Re.caps -> option A) x,
    Re.run icase r prev s m k = Some x ->
    exists prev' s' m',
      Re.matched icase r prev s m prev' s' m' /\ k prev' s' m' = Some x.
Proof.
  induction r as [|cs|cs lo hi greedy|r IH|r1 IH1 r2 IH2|r1 IH1 r2 IH2|i r IH|];
    intros prev s m k x H; simpl in H.
  - exists prev, s, m. split; [constructor|exact H].
  - destruct s as [|c s]; [discriminate|].
    destruct (Re.accepts icase cs c) eqn:Hc; [|discriminate].
    exists (Some c), s, m. split; [constructor; exact Hc|exact H].
  - apply repetition_sound in H.
    destruct H as (w & s' & -> & Hall & Hlo & Hhi & Hk).
    exists (Re.last_of prev w), s', m. split; [constructor; assumption|exact Hk].
  - destruct (Re.run icase r prev s m k) eqn:Hr.
    + inversion H; subst. apply IH in Hr.
      destruct Hr as (p' & s' & m' & Hm & Hk).
      exists p', s', m'. split; [apply Re.M_Maybe_taken; exact Hm|exact Hk].
    + exists prev, s, m. split; [apply Re.M_Maybe_skipped|exact H].
  - apply IH1 in H. destruct H as (p1 & s1 & m1 & Hm1 & H).
    apply IH2 in H. destruct H as (p2 & s2 & m2 & Hm2 & H).
    exists p2, s2, m2. split; [econstructor; eassumption|exact H].
  - destruct (Re.run icase r1 prev s m k) eqn:Hr.
    + inversion H; subst. apply IH1 in Hr.
      destruct Hr as (p' & s' & m' & Hm & Hk).
      exists p', s', m'. split; [apply Re.M_Or_left; exact Hm|exact Hk].
    + apply IH2 in H. destruct H as (p' & s' & m' & Hm & Hk).
      exists p', s', m'. split; [apply Re.M_Or_right; exact Hm|exact Hk].
  - apply IH in H. destruct H as (p' & s' & m' & Hm & Hk).
    eexists p', s', _. split; [constructor; exact Hm|exact Hk].
  - destruct (xorb (Re.isword_at prev) (Re.isword_at (hd_error s))) eqn:Hb;
      [|discriminate].
    exists prev, s, m. split; [constructor; exact Hb|exact H].
Qed.

End Soundness.

(** ** What a successful search tells *)

Ltac ascii_cases c := destruct c as [[] [] [] [] [] [] [] []].

Lemma firstn_consumed (w s : str) :
  firstn (List.length (w ++ s) - List.length s) (w ++ s) = w.
Proof.
  rewrite length_app, Nat.add_sub, firstn_app, Nat.sub_diag, firstn_all.
  simpl. apply app_nil_r.
Qed.

Lemma group_bound (i : nat) (w : str) (m : Re.caps) :
  Re.group ((i, w) :: m) i = Some w.
Proof. simpl. rewrite Nat.eqb_refl. reflexivity. Qed.

(** A pattern that ends in a group repeating a set at least once binds
    that group to a non-empty run of characters of the set. *)
Lemma closing_group_matched icase (r : Re.regex) :
  forall i cs prev s m prev' s' m',
    Re.closing_group r = Some (i, cs) ->
    Re.matched icase r prev s m prev' s' m' ->
    exists w,
      Re.group m' i = Some w /\ w <> []
      /\ Forall (fun c => Re.accepts icase cs c = true) w.
Proof.
  induction r as [| | | |r1 _ r2 IH2| |j r _|];
    intros i cs0 prev s m prev' s' m' Hc Hm; simpl in Hc; try discriminate.
  - inversion Hm; subst. eapply IH2; eassumption.
  - destruct r as [| |cs' lo hi greedy| | | | |]; try discriminate.
    destruct lo as [|lo]; [discriminate|].
    inversion Hc; subst. inversion Hm; subst.
    match goal with H : Re.matched _ (Re.Repeat _ _ _ _) _ _ _ _ _ _ |- _ =>
      inversion H; subst end.
    exists w. rewrite firstn_consumed. split; [apply group_bound|].
    split; [|assumption].
    destruct w; [simpl in *; lia|discriminate].
Qed.

Lemma search_from_sound icase (r : Re.regex) (s : str) :
  forall prev m,
    Re.search_from icase r prev s = Some m ->
    exists prev0 t prev' s', Re.matched icase r prev0 t [] prev' s' m.
Proof.
  induction s as [|c s IH]; intros prev m H; simpl in H.
  - destruct (Re.match_here icase r false prev []) as [[[m0 p0] s0]|] eqn:Hh;
      [|discriminate].
    inversion H; subst. unfold Re.match_here in Hh.
    apply run_sound in Hh. destruct Hh as (p' & s' & m' & Hm & Hk).
    simpl in Hk. inversion Hk; subst. eauto.
  - destruct (Re.match_here icase r false prev (c :: s)) as [[[m0 p0] s0]|] eqn:Hh.
    + inversion H; subst. unfold Re.match_here in Hh.
      apply run_sound in Hh. destruct Hh as (p' & s' & m' & Hm & Hk).
      simpl in Hk. inversion Hk; subst. eauto.
    + eapply IH; eassumption.
Qed.

Lemma search_closing_group (pattern text : str) (r : Re.regex) i cs m :
  Re.compile pattern = Some r ->
  Re.closing_group r = Some (i, cs) ->
  Re.search pattern text Re.IGNORECASE = Ok (Some m) ->
  exists w,
    Re.group m i = Some w /\ w <> []
    /\ Forall (fun c => Re.accepts true cs c = true) w.
Proof.
  intros Hr Hc H. unfold Re.search, Re.compiled in H. rewrite Hr in H.
  simpl in H. inversion H as [H']. apply search_from_sound in H'.
  destruct H' as (p0 & t & p' & s' & Hm).
  eapply closing_group_matched; eassumption.
Qed.

Lemma first_match_found (patterns : list str) (text : str) p m :
  first_match patterns text = Ok (Some (p, m)) ->
  In p patterns /\ Re.search p text Re.IGNORECASE = Ok (Some m).
Proof.
  induction patterns as [|q rest IH]; simpl; [discriminate|].
  destruct (Re.search q text Re.IGNORECASE) as [[m0|]|e] eqn:Hs; simpl.
  - intros H. inversion H; subst. auto.
  - intros H. apply IH in H. tauto.
  - discriminate.
Qed.

(** A string that neither starts nor ends with whitespace is its own
    [strip()]. *)
Lemma strip_solid (w : str) :
  Forall (fun c => Char.isspace c = false) w -> Str.strip w = w.
Proof.
  intros H. unfold Str.strip, Str.lstrip, Str.rstrip.
  assert (Hd : forall u : str,
             Forall (fun c => Char.isspace c = false) u ->
             Str.dropwhile Char.isspace u = u).
  { intros u Hu. destruct Hu as [|c u Hc _]; simpl; [reflexivity|].
    rewrite Hc. reflexivity. }
  rewrite (Hd w H), Hd, rev_involutive; [reflexivity|].
  apply Forall_rev. exact H.
Qed.

(** The three license patterns compile, and each ends in group 1 over a
    set without whitespace. *)
Lemma license_patterns_shape (p : str) :
  In p license_patterns ->
  exists r cs,
    Re.compile p = Some r /\ Re.closing_group r = Some (1%nat, cs)
    /\ forall c, Re.accepts true cs c = true -> Char.isspace c = false.
Proof.
  intros [<-|[<-|[<-|[]]]];
    (eexists; eexists; split; [vm_compute; reflexivity|];
     split; [reflexivity|];
     intros c; ascii_cases c; vm_compute; intros H;
     first [reflexivity|discriminate H]).
Qed.

(** The license field is either untouched or holds a non-empty token with
    confidence [base + 0.1]. *)
Lemma license_field_cases (text : str) (b : float) (fv : FieldValue) :
  license_field text b = Ok fv ->
  (first_match license_patterns text = Ok None /\ fv = no_field)
  \/ (exists p m w,
        first_match license_patterns text = Ok (Some (p, m))
        /\ Re.group m 1 = Some w /\ w <> []
        /\ fv = {| value := w; confidence := b + 0.1 |}).
Proof.
  unfold license_field.
  destruct (first_match license_patterns text) as [[[p m]|]|e] eqn:Hf;
    simpl; [| |discriminate].
  - destruct (first_match_found _ _ Hf) as [Hin Hs].
    destruct (license_patterns_shape Hin) as (r & cs & Hr & Hc & Hcs).
    destruct (search_closing_group _ _ Hr Hc Hs) as (w & Hg & Hne & Hall).
    rewrite Hg. simpl. intros H. inversion H; subst. right.
    exists p, m, w. repeat split; auto.
    rewrite strip_solid; [reflexivity|].
    eapply Forall_impl; [|exact Hall]. exact Hcs.
  - intros H. inversion H; subst. left. auto.
Qed.

(** ** The three sections of the extractor *)

Lemma extract_fields_ok (text : str) (b : float) (f : Fields) :
  _extract_fields_from_text text b = Ok f ->
  exists license names date,
    license_field text b = Ok license
    /\ collect_names name_patterns text [] = Ok names
    /\ date_field text b = Ok date
    /\ f = {| license_number := license;
              name_spouse1 := name_field 0 names b;
              name_spouse2 := name_field 1 names b;
              marriage_date := date |}.
Proof.
  unfold _extract_fields_from_text.
  destruct (license_field text b) as [license|e]; cbn [bind]; [|discriminate].
  destruct (collect_names name_patterns text []) as [names|e]; cbn [bind];
    [|discriminate].
  destruct (date_field text b) as [date|e]; cbn [bind]; [|discriminate].
  intros H. inversion H; subst. exists license, names, date. auto.
Qed.

Lemma keep_long (names : list str) (found : str) :
  Forall long_enough names -> Forall long_enough (keep names found).
Proof.
  intros H. unfold keep.
  destruct (2 <? List.length (Str.strip found))%nat eqn:Hl; simpl; [|exact H].
  destruct (negb (existsb (str_eqb (Str.strip found)) names)); [|exact H].
  apply Forall_app. split; [exact H|].
  constructor; [|constructor]. apply Nat.ltb_lt. exact Hl.
Qed.

Lemma fold_keep_long (found : list str) :
  forall names,
    Forall long_enough names -> Forall long_enough (fold_left keep found names).
Proof.
  induction found as [|x found IH]; intros names H; simpl; [exact H|].
  apply IH, keep_long, H.
Qed.

Lemma collect_names_long (patterns : list str) (text : str) :
  forall names out,
    collect_names patterns text names = Ok out ->
    Forall long_enough names -> Forall long_enough out.
Proof.
  induction patterns as [|p rest IH]; intros names out H Hn; simpl in H.
  - inversion H; subst. exact Hn.
  - destruct (Re.findall p text Re.IGNORECASE) as [found|e]; simpl in H;
      [|discriminate].
    eapply IH; [exact H|]. apply fold_keep_long, Hn.
Qed.

(** A name slot is either untouched or holds a kept name, longer than two
    characters, with confidence [base + 0.1]. *)
Lemma name_field_cases (n : nat) (names : list str) (b : float) :
  Forall long_enough names ->
  ((List.length names <= n)%nat /\ name_field n names b = no_field)
  \/ ((n < List.length names)%nat
      /\ long_enough (nth n names [])
      /\ name_field n names b
         = {| value := nth n names []; confidence := b + 0.1 |}).
Proof.
  intros H. unfold name_field.
  destruct (n + 1 <=? List.length names)%nat eqn:Hl.
  - apply Nat.leb_le in Hl. right. split; [lia|]. split; [|reflexivity].
    rewrite Forall_forall in H. apply H, nth_In. lia.
  - apply Nat.leb_gt in Hl. left. split; [lia|reflexivity].
Qed.

Lemma date_value_nonempty (pattern : str) (m : Re.caps) (v : str) :
  date_value pattern m = Ok v -> v <> [].
Proof.
  unfold date_value, method.
  destruct (Str.contains (lit "day of") pattern);
    [|destruct (Str.startswith (lit "(\d{4})") pattern)];
    repeat match goal with
           | |- context [Re.group m ?i] => destruct (Re.group m i); simpl
           end;
    intros H; inversion H; subst; clear H;
    intros E; apply (f_equal (@List.length ascii)) in E;
    repeat (rewrite length_app in E; simpl in E);
    first [discriminate E|lia].
Qed.

(** The date field is either untouched or holds a non-empty value with
    confidence [base + 0.1]. *)
Lemma date_field_cases (text : str) (b : float) (fv : FieldValue) :
  date_field text b = Ok fv ->
  (first_match date_patterns text = Ok None /\ fv = no_field)
  \/ (exists p m v,
        first_match date_patterns text = Ok (Some (p, m))
        /\ date_value p m = Ok v /\ v <> []
        /\ fv = {| value := v; confidence := b + 0.1 |}).
Proof.
  unfold date_field.
  destruct (first_match date_patterns text) as [[[p m]|]|e] eqn:Hf;
    simpl; [| |discriminate].
  - destruct (date_value p m) as [v|e] eqn:Hv; simpl; [|discriminate].
    intros H. inversion H; subst. right. exists p, m, v.
    repeat split; auto. eapply date_value_nonempty; eassumption.
  - intros H. inversion H; subst. left. auto.
Qed.

(** ** The extractor returns, or [zfill] is looked up on [None] *)

Lemma patterns_compile :
  forallb compiles (license_patterns ++ name_patterns ++ date_patterns) = true.
Proof. vm_compute. reflexivity. Qed.

Lemma first_match_returns (patterns : list str) (text : str) :
  forallb compiles patterns = true ->
  exists found, first_match patterns text = Ok found.
Proof.
  induction patterns as [|p rest IH]; simpl; [eauto|].
  intros H. apply andb_prop in H. destruct H as [Hp Hrest].
  unfold Re.search, Re.compiled. unfold compiles in Hp.
  destruct (Re.compile p) as [r|]; [|discriminate]. cbn [bind].
  destruct (Re.search_from Re.IGNORECASE r None text); eauto.
Qed.

Lemma collect_names_returns (patterns : list str) (text : str) :
  forallb compiles patterns = true ->
  forall names, exists out, collect_names patterns text names = Ok out.
Proof.
  induction patterns as [|p rest IH]; simpl; [eauto|].
  intros H names. apply andb_prop in H. destruct H as [Hp Hrest].
  unfold Re.findall, Re.compiled. unfold compiles in Hp.
  destruct (Re.compile p) as [r|]; [|discriminate]. cbn [bind].
  apply IH. exact Hrest.
Qed.

Lemma license_field_returns (text : str) (b : float) :
  exists fv, license_field text b = Ok fv.
Proof.
  unfold license_field.
  destruct (@first_match_returns license_patterns text eq_refl) as [found Hf].
  rewrite Hf. cbn [bind]. destruct found as [[p m]|]; [|eauto].
  destruct (first_match_found _ _ Hf) as [Hin Hs].
  destruct (license_patterns_shape Hin) as (r & cs & Hr & Hc & _).
  destruct (search_closing_group _ _ Hr Hc Hs) as (w & Hg & _).
  rewrite Hg. cbn [method bind]. eauto.
Qed.

(** The extractor either returns its four fields or raises the
    [AttributeError] of [match.group(...).zfill(2)] in the date section;
    no other exception leaves it. *)
Lemma extractor_returns_or_raises (text : str) (b : float) :
  (exists f, _extract_fields_from_text text b = Ok f)
  \/ _extract_fields_from_text text b = Raise (AttributeError "zfill").
Proof.
  unfold _extract_fields_from_text.
  destruct (license_field_returns text b) as [license ->].
  destruct (@collect_names_returns name_patterns text eq_refl []) as [names ->].
  cbn [bind]. unfold date_field.
  destruct (@first_match_returns date_patterns text eq_refl) as [found ->].
  cbn [bind]. destruct found as [[p m]|]; [|cbn [bind]; eauto].
  unfold date_value, method.
  destruct (Str.contains (lit "day of") p);
    [|destruct (Str.startswith (lit "(\d{4})") p)];
    repeat match goal with
           | |- context [Re.group m ?i] => destruct (Re.group m i)
           end;
    cbn [bind]; eauto.
Qed.

(** ** The pairing of value and confidence *)

(** C2.  In every result the extractor or the assembler produces, a field
    whose value is the empty string has confidence 0.0. *)
Theorem field_value_pairing (text : str) (b : float)
    (outcome : TranscriptionOutcome) :
  (forall f, _extract_fields_from_text text b = Ok f -> all_paired f)
  /\ (forall r, assemble _extract_fields_from_text outcome = Ok r ->
                all_paired (fields r)).
Proof.
  assert (Hx : forall t c f, _extract_fields_from_text t c = Ok f -> all_paired f).
  { intros t c f H. apply extract_fields_ok in H.
    destruct H as (license & names & date & Hl & Hn & Hd & ->).
    assert (Hlong : Forall long_enough names).
    { eapply collect_names_long; [exact Hn|constructor]. }
    unfold all_paired, paired; simpl. repeat split.
    - apply license_field_cases in Hl.
      destruct Hl as [[_ ->]|(p & m & w & _ & _ & Hne & ->)]; simpl; tauto.
    - destruct (name_field_cases 0 c Hlong) as [[_ ->]|(_ & Hlen & ->)];
        simpl; [reflexivity|].
      intros E. unfold long_enough in Hlen. rewrite E in Hlen. simpl in Hlen. lia.
    - destruct (name_field_cases 1 c Hlong) as [[_ ->]|(_ & Hlen & ->)];
        simpl; [reflexivity|].
      intros E. unfold long_enough in Hlen. rewrite E in Hlen. simpl in Hlen. lia.
    - apply date_field_cases in Hd.
      destruct Hd as [[_ ->]|(p & m & v & _ & _ & Hne & ->)]; simpl; tauto. }
  split; [apply Hx|].
  intros r. unfold assemble.
  destruct (o_success outcome); cbn [negb bind].
  - destruct (_extract_fields_from_text (o_text outcome) (o_confidence outcome))
      as [f|e] eqn:Hf; cbn [bind]; [|discriminate].
    intros H. inversion H; subst. simpl. eapply Hx; eassumption.
  - intros H. inversion H; subst. simpl.
    unfold all_paired, paired. simpl. auto.
Qed.

Lemma field_value_pairing_witness :
  exists f r,
    _extract_fields_from_text (lit "I, Jane Doe, of Springfield") 0.5 = Ok f
    /\ all_paired f
    /\ assemble _extract_fields_from_text
         {| o_text := lit "06/15/1950"; o_confidence := 0.6;
            o_success := true; o_error := None |} = Ok r
    /\ all_paired (fields r).
Proof.
  pose proof (field_value_pairing (lit "I, Jane Doe, of Springfield") 0.5
                {| o_text := lit "06/15/1950"; o_confidence := 0.6;
                   o_success := true; o_error := None |}) as [Hf Hr].
  eexists. eexists.
  split; [vm_compute; reflexivity|].
  split; [apply Hf; vm_compute; reflexivity|].
  split; [vm_compute; reflexivity|].
  apply Hr; vm_compute; reflexivity.
Defined.

(** ** The name extractor refines its specification *)

Lemma str_eqb_true (a b : str) : str_eqb a b = true <-> a = b.
Proof.
  unfold str_eqb. destruct (str_eq_dec a b); split; auto; discriminate.
Qed.

Lemma str_eqb_sym (a b : str) : str_eqb a b = str_eqb b a.
Proof.
  unfold str_eqb. destruct (str_eq_dec a b), (str_eq_dec b a); congruence.
Qed.

Lemma filter_filter {A : Type} (p q : A -> bool) (l : list A) :
  filter p (filter q l) = filter (fun y => p y && q y) l.
Proof.
  induction l as [|x l IH]; simpl; [reflexivity|].
  destruct (q x); simpl; rewrite ?andb_true_r, ?andb_false_r;
    [destruct (p x)|]; rewrite IH; reflexivity.
Qed.

Lemma keep_strip (names : list str) (found : str) :
  keep names found
  = if (2 <? List.length (Str.strip found))%nat && fresh names (Str.strip found)
    then names ++ [Str.strip found] else names.
Proof. reflexivity. Qed.

Lemma kept_names_cons (x : str) (found : list str) :
  kept_names (x :: found)
  = if (2 <? List.length (Str.strip x))%nat
    then Str.strip x
           :: filter (fun y => negb (str_eqb (Str.strip x) y)) (kept_names found)
    else kept_names found.
Proof.
  unfold kept_names. simpl.
  destruct (2 <? List.length (Str.strip x))%nat; reflexivity.
Qed.

(** The loop body run over the candidates appends to [names] the kept
    names that are not in [names] yet. *)
Lemma fold_keep_unique (found : list str) :
  forall names,
    fold_left keep found names
    = names ++ filter (fresh names) (kept_names found).
Proof.
  induction found as [|x found IH]; intros names.
  - simpl. symmetry. apply app_nil_r.
  - cbn [fold_left]. rewrite IH, keep_strip, kept_names_cons.
    destruct (2 <? List.length (Str.strip x))%nat; cbn [andb]; [|reflexivity].
    cbn [filter]. destruct (fresh names (Str.strip x)) eqn:Hf.
    + rewrite <- app_assoc. cbn [app]. f_equal. f_equal.
      rewrite filter_filter. apply filter_ext. intros y. unfold fresh.
      rewrite existsb_app. simpl. rewrite orb_false_r, negb_orb.
      rewrite (str_eqb_sym y). reflexivity.
    + f_equal. rewrite filter_filter. apply filter_ext. intros y.
      destruct (fresh names y) eqn:Hy; [|reflexivity]. simpl.
      destruct (str_eqb (Str.strip x) y) eqn:E; [|reflexivity].
      apply str_eqb_true in E. subst y. congruence.
Qed.

Lemma collect_names_all_matches (patterns : list str) (text : str) :
  forall names,
    collect_names patterns text names
    = (candidates <- all_matches patterns text ;;
       Ok (fold_left keep candidates names)).
Proof.
  induction patterns as [|p rest IH]; intros names; simpl; [reflexivity|].
  destruct (Re.findall p text Re.IGNORECASE) as [found|e]; cbn [bind];
    [|reflexivity].
  rewrite IH. destruct (all_matches rest text) as [more|e]; cbn [bind];
    [|reflexivity].
  rewrite fold_left_app. reflexivity.
Qed.

Lemma name_field_slot (n : nat) (names : list str) (b : float) :
  name_field n names b = slot n names b.
Proof.
  unfold name_field, slot.
  destruct (n + 1 <=? List.length names)%nat eqn:Hl.
  - apply Nat.leb_le in Hl.
    rewrite (nth_error_nth' names []); [reflexivity|lia].
  - apply Nat.leb_gt in Hl.
    destruct (nth_error names n) eqn:E; [|reflexivity].
    assert (n < List.length names)%nat by (apply nth_error_Some; congruence).
    lia.
Qed.

(** C5.  The name extractor keeps, from all the matches of the three
    patterns in pattern-then-match order, each trimmed, those of trimmed
    length > 2, once each in order of first occurrence.  The two name
    fields are the first and the second kept candidate with confidence
    [b + 0.1]; a slot without a candidate stays at {"", 0.0}.  On
    "I, Jane Doe, of Springfield" the first slot holds "Jane Doe" and the
    second is unfilled. *)
Theorem names_refine_specification (text : str) (b : float) :
  (exists candidates,
      all_matches name_patterns text = Ok candidates
      /\ collect_names name_patterns text [] = Ok (kept_names candidates))
  /\ (forall f,
         _extract_fields_from_text text b = Ok f ->
         exists candidates,
           all_matches name_patterns text = Ok candidates
           /\ name_spouse1 f = slot 0 (kept_names candidates) b
           /\ name_spouse2 f = slot 1 (kept_names candidates) b)
  /\ (exists f,
         _extract_fields_from_text (lit "I, Jane Doe, of Springfield") b = Ok f
         /\ value (name_spouse1 f) = lit "Jane Doe"
         /\ name_spouse2 f = no_field).
Proof.
  assert (Hid : forall l : list str, filter (fresh []) l = l).
  { induction l as [|y l IHl]; simpl; [|rewrite IHl]; reflexivity. }
  assert (Hkept : forall names,
             collect_names name_patterns text [] = Ok names ->
             exists candidates,
               all_matches name_patterns text = Ok candidates
               /\ names = kept_names candidates).
  { intros names Hn. rewrite collect_names_all_matches in Hn.
    destruct (all_matches name_patterns text) as [candidates|e];
      cbn [bind] in Hn; [|discriminate].
    injection Hn as <-. exists candidates. split; [reflexivity|].
    rewrite fold_keep_unique. simpl app. apply Hid. }
  split; [|split].
  - destruct (@collect_names_returns name_patterns text eq_refl []) as [names Hn].
    destruct (Hkept names Hn) as (candidates & Hc & ->). eauto.
  - intros f H. apply extract_fields_ok in H.
    destruct H as (license & names & date & _ & Hn & _ & ->).
    destruct (Hkept names Hn) as (candidates & Hc & ->).
    exists candidates. split; [exact Hc|].
    cbn [name_spouse1 name_spouse2]. rewrite !name_field_slot. auto.
  - eexists. split; [vm_compute; reflexivity|]. split; reflexivity.
Qed.

Lemma names_refine_specification_witness :
  exists f candidates,
    _extract_fields_from_text (lit "Miss Ann Lee, I, Ann Lee, of Troy") 0.5 = Ok f
    /\ all_matches name_patterns (lit "Miss Ann Lee, I, Ann Lee, of Troy")
       = Ok candidates
    /\ candidates = [lit "Ann Lee"; lit "Ann Lee"]
    /\ name_spouse1 f = slot 0 (kept_names candidates) 0.5
    /\ name_spouse2 f = slot 1 (kept_names candidates) 0.5.
Proof.
  destruct (proj1 (proj2 (names_refine_specification
                            (lit "Miss Ann Lee, I, Ann Lee, of Troy") 0.5))
              {| license_number := no_field;
                 name_spouse1 := {| value := lit "Ann Lee"; confidence := 0.5 + 0.1 |};
                 name_spouse2 := no_field;
                 marriage_date := no_field |})
    as (candidates & Hc & H1 & H2).
  - vm_compute. reflexivity.
  - eexists. exists candidates.
    split; [vm_compute; reflexivity|].
    split; [exact Hc|].
    split; [|split; [exact H1|exact H2]].
    vm_compute in Hc. inversion Hc. reflexivity.
Defined.

(** ** The worked scenarios *)

(** C1 (what the code does).  On "15th day of June, 1950" no date pattern
    matches: the first one wants whitespace after the month word, where
    the text has a comma.  The extractor returns, with [marriage_date] left
    at {"", 0.0} and not "1950-June-01".  Besides, no pattern string
    contains "day of", so the branch that defaults the day to "01" is
    never taken. *)
Theorem scenario_D_date_not_extracted (b : float) :
  Re.search (nth 0 date_patterns []) (lit "15th day of June, 1950")
    Re.IGNORECASE = Ok None
  /\ first_match date_patterns (lit "15th day of June, 1950") = Ok None
  /\ _extract_fields_from_text (lit "15th day of June, 1950") b
     = Ok {| license_number := no_field; name_spouse1 := no_field;
             name_spouse2 := no_field; marriage_date := no_field |}
  /\ forallb (fun pattern => negb (Str.contains (lit "day of") pattern))
       date_patterns = true.
Proof. repeat split; vm_compute; reflexivity. Qed.

(** When the first date pattern matches without a day, the day group is
    [None] and [match.group(2).zfill(2)] raises: the extractor returns
    nothing. *)
Lemma date_without_day_raises (b : float) :
  Re.search (nth 0 date_patterns []) (lit "15th day of June 1950")
    Re.IGNORECASE
  = Ok (Some [(3%nat, lit "1950"); (1%nat, lit "June")])
  /\ _extract_fields_from_text (lit "15th day of June 1950") b
     = Raise (AttributeError "zfill").
Proof. split; vm_compute; reflexivity. Qed.

(** With a day, the first date pattern gives year, month word and day. *)
Lemma date_with_day (b : float) :
  date_field (lit "15th day of June 7, 1950") b
  = Ok {| value := lit "1950-June-07"; confidence := b + 0.1 |}.
Proof. vm_compute. reflexivity. Qed.

(** Scenario A: the empty text. *)
Lemma scenario_A (b : float) :
  _calculate_confidence [] = 0.0
  /\ _extract_fields_from_text [] b
     = Ok {| license_number := no_field; name_spouse1 := no_field;
             name_spouse2 := no_field; marriage_date := no_field |}.
Proof. split; vm_compute; reflexivity. Qed.

(** Scenario E: a numeric date. *)
Lemma scenario_E (b : float) :
  date_field (lit "06/15/1950") b
  = Ok {| value := lit "1950-06-15"; confidence := b + 0.1 |}.
Proof. vm_compute. reflexivity. Qed.

(** A text for which the estimator returns 1.0 goes through the whole
    service with a license confidence above 1.0. *)
Lemma service_confidence_above_one :
  let text :=
    lit "Marriage License Application No. 12345 issued in the County of Springfield" in
  exists r,
    extract_marriage_license_fields true (fun _ : unit => inl text) tt = Ok r
    /\ success r = true
    /\ value (license_number (fields r)) = lit "12345"
    /\ confidence (license_number (fields r)) = 1.0 + 0.1
    /\ (1.0 <? confidence (license_number (fields r))) = true.
Proof.
  cbv zeta. eexists. split; [vm_compute; reflexivity|].
  repeat split; vm_compute; reflexivity.
Qed.

(** C4.  When the transcription failed, the assembled result has the four
    fields at {"", 0.0}, [success] false, the outcome's text as
    [raw_text] and the outcome's error, whatever the text is; the field
    extractor is not called: the result is the same for every extractor. *)
Theorem failure_short_circuit (extract : str -> float -> result Fields)
    (outcome : TranscriptionOutcome) :
  o_success outcome = false ->
  assemble extract outcome
  = Ok {| fields := {| license_number := no_field; name_spouse1 := no_field;
                       name_spouse2 := no_field; marriage_date := no_field |};
          raw_text := o_text outcome;
          success := false;
          error := o_error outcome |}.
Proof. intros H. unfold assemble. rewrite H. reflexivity. Qed.

Lemma failure_short_circuit_witness :
  _extract_fields_from_text (lit "15th day of June 1950") 0.9
  = Raise (AttributeError "zfill")
  /\ assemble _extract_fields_from_text
       {| o_text := lit "15th day of June 1950"; o_confidence := 0.9;
          o_success := false; o_error := Some (lit "cannot identify image") |}
     = Ok {| fields := {| license_number := no_field; name_spouse1 := no_field;
                          name_spouse2 := no_field; marriage_date := no_field |};
             raw_text := lit "15th day of June 1950";
             success := false;
             error := Some (lit "cannot identify image") |}.
Proof.
  split; [vm_compute; reflexivity|].
  apply (failure_short_circuit _extract_fields_from_text
           {| o_text := lit "15th day of June 1950"; o_confidence := 0.9;
              o_success := false;
              o_error := Some (lit "cannot identify image") |}).
  reflexivity.
Defined.

(** C7.  On "marriage license application no. 12345" the estimator
    returns exactly 0.9: the base 0.5, 0.1 for a length over 10, 0.2 for a
    keyword and 0.1 for a digit, with no bonus for a length over 50 or for
    an upper-case letter.  The first license pattern matches, the value is
    "12345" and the confidence is the base plus 0.1, not clamped again:
    1.0 for the base 0.9. *)
Theorem scenario_B :
  let text := lit "marriage license application no. 12345" in
  _calculate_confidence text = 0.9
  /\ (0.5 + 0.1 + 0.2 + 0.1 = 0.9
      /\ (10 <? List.length text)%nat = true
      /\ (50 <? List.length text)%nat = false
      /\ existsb (fun word => Str.contains word (Str.lower text)) keywords = true
      /\ existsb Char.isdigit text = true
      /\ existsb Char.isupper text = false)
  /\ first_match license_patterns text
     = Ok (Some (nth 0 license_patterns [], [(1%nat, lit "12345")]))
  /\ (forall b,
         exists f,
           _extract_fields_from_text text b = Ok f
           /\ license_number f
              = {| value := lit "12345"; confidence := b + 0.1 |})
  /\ (exists f,
         _extract_fields_from_text text (_calculate_confidence text) = Ok f
         /\ license_number f = {| value := lit "12345"; confidence := 1.0 |}).
Proof.
  cbv zeta.
  split; [vm_compute; reflexivity|].
  split; [repeat split; vm_compute; reflexivity|].
  split; [vm_compute; reflexivity|].
  split.
  - intros b. eexists. split; [vm_compute; reflexivity|reflexivity].
  - eexists. split; [vm_compute; reflexivity|reflexivity].
Qed.

(** ** Field confidence is the base plus 0.1, unclamped *)










(** ** Where a search starts *)

Lemma last_of_cons prev c (w : str) :
  Re.last_of prev (c :: w) = Re.last_of (Some c) w.
Proof. reflexivity. Qed.

Lemma last_of_snoc prev (w : str) c :
  Re.last_of prev (w ++ [c]) = Some c.
Proof. unfold Re.last_of. rewrite fold_left_app. reflexivity. Qed.

Section Repetition.

Variable icase : bool.
Variable A : Type.

(** A repetition that may be empty is empty in front of a character
    outside its set. *)
Lemma repetition_at_rejected cs greedy hi prev (s : str)
    (k : option ascii -> str -> option A) :
  rejected icase cs s ->
  Re.repetition icase cs greedy 0 hi prev s k = k prev s.
Proof.
  destruct s as [|c s]; simpl; [reflexivity|].
  intros ->. rewrite andb_false_r. reflexivity.
Qed.

(** A greedy unbounded repetition takes a whole run of its set when the
    rest of the pattern matches after the run. *)
Lemma repetition_whole_run cs (w : str) :
  forall lo prev (t : str) (k : option ascii -> str -> option A) x,
    Forall (fun c => Re.accepts icase cs c = true) w ->
    rejected icase cs t ->
    lo <= List.length w ->
    k (Re.last_of prev w) t = Some x ->
    Re.repetition icase cs true lo None prev (w ++ t) k = Some x.
Proof.
  induction w as [|c w IH]; intros lo prev t k x Hw Ht Hlo Hk.
  - simpl in Hlo. assert (lo = 0)%nat by lia. subst lo. simpl app.
    rewrite repetition_at_rejected; assumption.
  - inversion Hw as [|? ? Hc Hw']; subst. simpl.
    rewrite Hc. simpl.
    rewrite (IH (pred lo) (Some c) t k x); auto.
    simpl in Hlo. lia.
Qed.

End Repetition.

Lemma char_before_prefix (p s : str) :
  Re.char_before (p ++ s) (List.length p) = Re.last_of None p.
Proof.
  induction p as [|c p' _] using rev_ind; [reflexivity|].
  rewrite last_of_snoc, length_app, Nat.add_comm. simpl.
  rewrite <- app_assoc, nth_error_app2, Nat.sub_diag; [reflexivity|lia].
Qed.

Lemma skipn_prefix (p s : str) : skipn (List.length p) (p ++ s) = s.
Proof.
  rewrite skipn_app, skipn_all, Nat.sub_diag. reflexivity.
Qed.

(** A search passes over a prefix at no position of which the pattern
    matches. *)
Lemma search_from_after icase (r : Re.regex) (pre : str) :
  forall prev (t : str),
    (forall p c q,
        pre = p ++ c :: q ->
        Re.match_here icase r false (Re.last_of prev p) (c :: q ++ t) = None) ->
    Re.search_from icase r prev (pre ++ t)
    = Re.search_from icase r (Re.last_of prev pre) t.
Proof.
  induction pre as [|a pre IH]; intros prev t H; [reflexivity|].
  simpl app. cbn [Re.search_from].
  pose proof (H [] a pre eq_refl) as H0.
  change (Re.last_of prev []) with prev in H0. rewrite H0.
  rewrite last_of_cons.
  apply IH. intros p c q ->. apply (H (a :: p) c q). reflexivity.
Qed.

Lemma search_after_prefix (pattern : str) (r : Re.regex) (pre t : str) :
  Re.compile pattern = Some r ->
  (forall i, (i < List.length pre)%nat ->
             Re.match_at pattern (pre ++ t) Re.IGNORECASE i = Ok None) ->
  Re.search pattern (pre ++ t) Re.IGNORECASE
  = Ok (Re.search_from true r (Re.last_of None pre) t).
Proof.
  intros Hr H. unfold Re.search, Re.compiled, Re.IGNORECASE.
  rewrite Hr. cbn [bind].
  f_equal. apply search_from_after. intros p c q ->.
  specialize (H (List.length p)).
  unfold Re.match_at, Re.compiled in H. rewrite Hr in H. cbn [bind] in H.
  rewrite <- app_assoc, char_before_prefix, skipn_prefix in H.
  simpl app in H. unfold Re.IGNORECASE in H.
  destruct (Re.match_here true r false (Re.last_of None p) (c :: q ++ t));
    [|reflexivity].
  assert (Hi : (List.length p < List.length (p ++ c :: q))%nat).
  { rewrite length_app. simpl. lia. }
  specialize (H Hi). discriminate H.
Qed.

(** ** The third license pattern *)

Lemma license_regex_3_compiled :
  Re.compile (nth 2 license_patterns []) = Some license_regex_3.
Proof. vm_compute. reflexivity. Qed.

Lemma space_accepted (c : ascii) :
  Char.isspace c = true -> Re.accepts true [Re.Space] c = true.
Proof. ascii_cases c; vm_compute; intros H; first [reflexivity|discriminate H]. Qed.

Lemma digit_accepted (c : ascii) :
  Re.accepts true [Re.Range "0" "9"] c = Char.isdecimal c.
Proof. ascii_cases c; vm_compute; reflexivity. Qed.

Lemma digit_not_space (c : ascii) :
  Char.isdecimal c = true ->
  Char.isspace c = false /\ Re.accepts true [Re.Space] c = false.
Proof.
  ascii_cases c; vm_compute; intros H;
    first [split; reflexivity|discriminate H].
Qed.

Lemma dot_rejected (c : ascii) :
  Char.isspace c = true \/ Char.isdecimal c = true ->
  Re.accepts true [Re.Lit "."] c = false.
Proof.
  ascii_cases c; vm_compute; intros [H|H];
    first [reflexivity|discriminate H].
Qed.

(** At "no", optional whitespace and a run of digits that no digit
    follows, the third license pattern matches and binds the run. *)
Lemma license_regex_3_here prev (n o : ascii) (ws ds rest : str) :
  (n = "n" \/ n = "N")%char ->
  (o = "o" \/ o = "O")%char ->
  Forall (fun c => Char.isspace c = true) ws ->
  Forall (fun c => Char.isdecimal c = true) ds ->
  ds <> [] ->
  (forall c, hd_error rest = Some c -> Char.isdecimal c = false) ->
  exists prev',
    Re.match_here true license_regex_3 false prev (n :: o :: ws ++ ds ++ rest)
    = Some ([(1%nat, ds)], prev', rest).
Proof.
  intros Hn Ho Hws Hds Hne Hrest.
  eexists. unfold Re.match_here, license_regex_3. cbn [Re.run].
  replace (Re.accepts true [Re.Lit "n"] n) with true
    by (destruct Hn; subst; reflexivity).
  replace (Re.accepts true [Re.Lit "o"] o) with true
    by (destruct Ho; subst; reflexivity).
  rewrite repetition_at_rejected.
  2:{ destruct ws as [|c ws]; cbn [app rejected].
      - destruct ds as [|d ds]; [contradiction|]. cbn [app rejected].
        inversion Hds; subst. apply dot_rejected. auto.
      - inversion Hws; subst. apply dot_rejected. auto. }
  apply repetition_whole_run.
  - eapply Forall_impl; [|exact Hws]. apply space_accepted.
  - destruct ds as [|d ds]; [contradiction|]. cbn [app rejected].
    inversion Hds; subst. apply digit_not_space. assumption.
  - lia.
  - apply repetition_whole_run.
    + eapply Forall_impl; [|exact Hds]. intros c Hc.
      rewrite digit_accepted. exact Hc.
    + destruct rest as [|c rest]; cbn [rejected]; [exact I|].
      rewrite digit_accepted. apply Hrest. reflexivity.
    + destruct ds; [contradiction|simpl; lia].
    + cbn [andb]. rewrite firstn_consumed. reflexivity.
Qed.

Lemma first_match_third (text : str) (m : Re.caps) :
  Re.search (nth 0 license_patterns []) text Re.IGNORECASE = Ok None ->
  Re.search (nth 1 license_patterns []) text Re.IGNORECASE = Ok None ->
  Re.search (nth 2 license_patterns []) text Re.IGNORECASE = Ok (Some m) ->
  first_match license_patterns text
  = Ok (Some (nth 2 license_patterns [], m)).
Proof.
  intros H1 H2 H3. unfold license_patterns in *. cbn [nth] in *.
  cbn [first_match]. rewrite H1. cbn [bind]. rewrite H2. cbn [bind].
  rewrite H3. reflexivity.
Qed.

(** C9 (as amended).  The third license pattern asks for no period after
    "no" and for no word boundary before it.  Let the text hold the letter
    pair "no", in either case and possibly inside a word, followed by
    optional whitespace and a run of digits that no digit follows; let the
    first two license patterns not match, and the third one match at no
    earlier position.  Then [license_number] is that run of digits with
    confidence [b + 0.1]. *)
Theorem third_license_pattern (pre ws ds rest : str) (n o : ascii) (b : float) :
  let text := pre ++ n :: o :: ws ++ ds ++ rest in
  (n = "n" \/ n = "N")%char ->
  (o = "o" \/ o = "O")%char ->
  Forall (fun c => Char.isspace c = true) ws ->
  Forall (fun c => Char.isdecimal c = true) ds ->
  ds <> [] ->
  (forall c, hd_error rest = Some c -> Char.isdecimal c = false) ->
  Re.search (nth 0 license_patterns []) text Re.IGNORECASE = Ok None ->
  Re.search (nth 1 license_patterns []) text Re.IGNORECASE = Ok None ->
  (forall i, (i < List.length pre)%nat ->
             Re.match_at (nth 2 license_patterns []) text Re.IGNORECASE i
             = Ok None) ->
  license_field text b = Ok {| value := ds; confidence := b + 0.1 |}
  /\ forall f,
       _extract_fields_from_text text b = Ok f ->
       license_number f = {| value := ds; confidence := b + 0.1 |}.
Proof.
  intros text Hn Ho Hws Hds Hne Hrest H1 H2 H3.
  assert (Hl : license_field text b
               = Ok {| value := ds; confidence := b + 0.1 |}).
  { unfold license_field.
    rewrite (@first_match_third text [(1%nat, ds)] H1 H2).
    - cbn [bind]. rewrite group_bound. cbn [method bind].
      rewrite strip_solid; [reflexivity|].
      eapply Forall_impl; [|exact Hds]. intros c Hc.
      apply digit_not_space. exact Hc.
    - unfold text.
      rewrite (search_after_prefix _ _ _ license_regex_3_compiled H3).
      destruct (@license_regex_3_here (Re.last_of None pre) n o ws ds rest
                  Hn Ho Hws Hds Hne Hrest)
        as [prev' Hm].
      destruct ws as [|c ws]; simpl app in *; cbn [Re.search_from];
        rewrite Hm; reflexivity. }
  split; [exact Hl|].
  intros f H. apply extract_fields_ok in H.
  destruct H as (license & names & date & Hl' & _ & _ & ->).
  cbn [license_number]. congruence.
Qed.

Lemma third_license_pattern_witness :
  license_field (lit "piano 123") 0.5
  = Ok {| value := lit "123"; confidence := 0.5 + 0.1 |}
  /\ _extract_fields_from_text (lit "piano 123") 0.5
     = Ok {| license_number := {| value := lit "123"; confidence := 0.5 + 0.1 |};
             name_spouse1 := no_field; name_spouse2 := no_field;
             marriage_date := no_field |}.
Proof.
  split; [|vm_compute; reflexivity].
  refine (proj1 (@third_license_pattern (lit "pia") (lit " ") (lit "123") []
                   "n" "o" 0.5 _ _ _ _ _ _ _ _ _)).
  - left; reflexivity.
  - left; reflexivity.
  - repeat constructor.
  - repeat constructor.
  - discriminate.
  - intros c H; discriminate H.
  - vm_compute; reflexivity.
  - vm_compute; reflexivity.
  - intros i Hi. destruct i as [|[|[|i]]]; [vm_compute; reflexivity..|].
    simpl in Hi. lia.
Defined.

(** C9 as stated fails: in "no.5 no 7" the only "no" that whitespace and a
    run of digits follow is the second, with the run "7", and the first
    two license patterns do not match; yet the third pattern matches
    first at "no.5", and [license_number] is "5". *)
Lemma later_number_not_taken :
  lit "no.5 no 7" = lit "no.5 " ++ "n"%char :: "o"%char :: lit " " ++ lit "7" ++ []
  /\ Re.search (nth 0 license_patterns []) (lit "no.5 no 7") Re.IGNORECASE
     = Ok None
  /\ Re.search (nth 1 license_patterns []) (lit "no.5 no 7") Re.IGNORECASE
     = Ok None
  /\ _extract_fields_from_text (lit "no.5 no 7") 0.5
     = Ok {| license_number := {| value := lit "5"; confidence := 0.5 + 0.1 |};
             name_spouse1 := no_field; name_spouse2 := no_field;
             marriage_date := no_field |}
  /\ lit "5" <> lit "7".
Proof.
  repeat split; try (vm_compute; reflexivity). discriminate.
Qed.

(** ** The first name pattern *)

Lemma name_regex_1_compiled :
  Re.compile (nth 0 name_patterns []) = Some name_regex_1.
Proof. vm_compute. reflexivity. Qed.

Lemma not_i_rejected (x : ascii) :
  x <> "i"%char -> x <> "I"%char -> Re.accepts true [Re.Lit "I"] x = false.
Proof.
  ascii_cases x; intros H1 H2; try reflexivity;
    try (exfalso; apply H1; reflexivity); exfalso; apply H2; reflexivity.
Qed.

(** The enumeration of matches passes over a prefix at no character of
    which the pattern can start. *)
Lemma matches_from_after icase (r : Re.regex) (w : str) :
  forall prev (t : str),
    Forall (fun x => forall p s, Re.match_here icase r false p (x :: s) = None) w ->
    Re.matches_from icase r 0 prev (w ++ t)
    = Re.matches_from icase r 0 (Re.last_of prev w) t.
Proof.
  induction w as [|x w IH]; intros prev t H; [reflexivity|].
  inversion H as [|? ? Hx Hw]; subst.
  simpl app. cbn [Re.matches_from]. rewrite Hx. rewrite last_of_cons.
  apply IH. exact Hw.
Qed.

Lemma first_name_found (w : str) (c : ascii) :
  Forall (fun x => x <> "i" /\ x <> "I")%char w ->
  (c = "i" \/ c = "I")%char ->
  Re.findall (nth 0 name_patterns []) (w ++ c :: lit ", Jane Doe, of Springfield")
    Re.IGNORECASE
  = Ok [lit "Jane Doe"].
Proof.
  intros Hw Hc. unfold Re.findall, Re.compiled, Re.IGNORECASE.
  rewrite name_regex_1_compiled. cbn [bind]. f_equal.
  rewrite matches_from_after.
  - generalize (Re.last_of None w). intros prev.
    destruct Hc; subst c; vm_compute; reflexivity.
  - eapply Forall_impl; [|exact Hw]. intros x [H1 H2] p s.
    unfold Re.match_here, name_regex_1. cbn [Re.run].
    rewrite (not_i_rejected H1 H2). reflexivity.
Qed.

Lemma collect_names_cons (p : str) (rest : list str) (text : str)
    (names : list str) :
  collect_names (p :: rest) text names
  = (found <- Re.findall p text Re.IGNORECASE ;;
     collect_names rest text (fold_left keep found names)).
Proof. reflexivity. Qed.

Lemma collect_names_head (patterns : list str) (text : str) (x : str)
    (names out : list str) :
  collect_names patterns text (x :: names) = Ok out ->
  exists more, out = x :: more.
Proof.
  rewrite collect_names_all_matches.
  destruct (all_matches patterns text) as [candidates|e]; cbn [bind];
    [|discriminate].
  intros H. injection H as <-. rewrite fold_keep_unique.
  simpl app. eauto.
Qed.

(** C10.  The first name pattern ignores case and asks for no word
    boundary before its "I": when "i" or "I" ends a word made of other
    letters (or any characters but "i" and "I") and ", Jane Doe, of
    Springfield" follows, the first name field is "Jane Doe" with
    confidence [b + 0.1].  So it is on "Hi, Jane Doe, of Springfield",
    where the extractor returns. *)
Theorem self_identification_inside_word (w : str) (c : ascii) (b : float) :
  (Forall (fun x => x <> "i" /\ x <> "I")%char w ->
   (c = "i" \/ c = "I")%char ->
   forall f,
     _extract_fields_from_text (w ++ c :: lit ", Jane Doe, of Springfield") b
     = Ok f ->
     name_spouse1 f = {| value := lit "Jane Doe"; confidence := b + 0.1 |})
  /\ _extract_fields_from_text (lit "Hi, Jane Doe, of Springfield") b
     = Ok {| license_number := no_field;
             name_spouse1 := {| value := lit "Jane Doe"; confidence := b + 0.1 |};
             name_spouse2 := no_field;
             marriage_date := no_field |}.
Proof.
  split; [|vm_compute; reflexivity].
  intros Hw Hc f H. apply extract_fields_ok in H.
  destruct H as (license & names & date & _ & Hn & _ & ->).
  cbn [name_spouse1].
  pose proof (first_name_found Hw Hc) as Hfirst.
  unfold name_patterns in Hn, Hfirst. cbn [nth] in Hfirst.
  rewrite collect_names_cons, Hfirst in Hn. cbn [bind] in Hn.
  change (fold_left keep [lit "Jane Doe"] []) with [lit "Jane Doe"] in Hn.
  apply collect_names_head in Hn. destruct Hn as [more ->].
  reflexivity.
Qed.

Lemma self_identification_inside_word_witness :
  exists f,
    _extract_fields_from_text (lit "Hi, Jane Doe, of Springfield") 0.5 = Ok f
    /\ name_spouse1 f = {| value := lit "Jane Doe"; confidence := 0.5 + 0.1 |}.
Proof.
  eexists. split; [vm_compute; reflexivity|].
  refine (proj1 (@self_identification_inside_word (lit "H") "i" 0.5) _ _ _ _).
  - repeat constructor; discriminate.
  - left; reflexivity.
  - vm_compute; reflexivity.
Defined.

(** * Further properties of the service *)

(** ** What the groups of a match hold *)

Lemma group_in (m : Re.caps) (i : nat) (w : str) :
  Re.group m i = Some w -> In (i, w) m.
Proof.
  induction m as [|[j g] m IH]; simpl; [discriminate|].
  destruct (i =? j)%nat eqn:E.
  - intros H. injection H as ->. apply Nat.eqb_eq in E. subst. auto.
  - auto.
Qed.

Lemma group_kept (m : Re.caps) (j : nat) (g : str) (i : nat) :
  Re.group m i <> None -> Re.group ((j, g) :: m) i <> None.
Proof. simpl. destruct (i =? j)%nat; [discriminate|auto]. Qed.

(** A binding after a match was there before, or is the text of a group
    of the pattern: a run of its set within its bounds. *)
Lemma matched_groups icase (r : Re.regex) prev s m prev' s' m' :
  Re.matched icase r prev s m prev' s' m' ->
  plain_groups r = true ->
  forall i w,
    In (i, w) m' ->
    In (i, w) m
    \/ exists cs lo hi,
         In (i, (cs, lo, hi)) (groups_of r)
         /\ Forall (fun c => Re.accepts icase cs c = true) w
         /\ (lo <= List.length w)%nat
         /\ (forall n, hi = Some n -> (List.length w <= n)%nat).
Proof.
  induction 1 as [ | | |r prev s m prev' s' m' _ IH| |
                   r1 r2 prev s m prev1 s1 m1 prev2 s2 m2 _ IH1 _ IH2|
                   r1 r2 prev s m prev' s' m' _ IH|
                   r1 r2 prev s m prev' s' m' _ IH|
                   j r prev s m prev' s' m' Hm IH| ];
    intros Hp i0 g Hin; auto.
  - simpl in Hp. apply andb_prop in Hp. destruct Hp as [Hp1 Hp2].
    destruct (IH2 Hp2 i0 g Hin) as [Hin1|(cs & lo & hi & Hg & Hrest)].
    + destruct (IH1 Hp1 i0 g Hin1) as [|(cs & lo & hi & Hg & Hrest)]; auto.
      right. exists cs, lo, hi. split; [|exact Hrest].
      simpl. apply in_or_app. auto.
    + right. exists cs, lo, hi. split; [|exact Hrest].
      simpl. apply in_or_app. auto.
  - simpl in Hp. apply andb_prop in Hp. destruct Hp as [Hp1 Hp2].
    destruct (IH Hp1 i0 g Hin) as [|(cs & lo & hi & Hg & Hrest)]; auto.
    right. exists cs, lo, hi. split; [|exact Hrest].
    simpl. apply in_or_app. auto.
  - simpl in Hp. apply andb_prop in Hp. destruct Hp as [Hp1 Hp2].
    destruct (IH Hp2 i0 g Hin) as [|(cs & lo & hi & Hg & Hrest)]; auto.
    right. exists cs, lo, hi. split; [|exact Hrest].
    simpl. apply in_or_app. auto.
  - destruct r as [| |cs lo hi greedy| | | | |]; simpl in Hp; try discriminate.
    inversion Hm; subst. destruct Hin as [E|Hin]; [|auto].
    injection E as <- <-. right. exists cs, lo, hi.
    rewrite firstn_consumed. simpl. auto.
Qed.

(** A group that every match of the pattern goes through is bound. *)
Lemma matched_binds icase (r : Re.regex) prev s m prev' s' m' (i : nat) :
  Re.matched icase r prev s m prev' s' m' ->
  (Re.group m i <> None -> Re.group m' i <> None)
  /\ (binds i r = true -> Re.group m' i <> None).
Proof.
  induction 1 as [ | | |r prev s m prev' s' m' _ IH| |
                   r1 r2 prev s m prev1 s1 m1 prev2 s2 m2 _ IH1 _ IH2|
                   r1 r2 prev s m prev' s' m' _ IH|
                   r1 r2 prev s m prev' s' m' _ IH|
                   j r prev s m prev' s' m' Hm IH| ];
    simpl; try (split; [auto|discriminate]).
  - tauto.
  - split; [tauto|]. intros H. apply orb_prop in H. tauto.
  - split; [tauto|]. intros H. apply andb_prop in H. tauto.
  - split; [tauto|]. intros H. apply andb_prop in H. tauto.
  - destruct (i =? j)%nat; simpl; split; try discriminate; tauto.
Qed.

Lemma matches_from_sound icase (r : Re.regex) (s : str) :
  forall skip prev m,
    In m (Re.matches_from icase r skip prev s) ->
    exists prev0 t prev' s', Re.matched icase r prev0 t [] prev' s' m.
Proof.
  assert (Hhere : forall adv prev (t : str) m p' s',
             Re.match_here icase r adv prev t = Some (m, p', s') ->
             exists prev0 t prev' s', Re.matched icase r prev0 t [] prev' s' m).
  { intros adv prev t m p' s' H. unfold Re.match_here in H.
    apply run_sound in H. destruct H as (p1 & s1 & m1 & Hm & Hk).
    destruct (adv && (List.length s1 =? List.length t)%nat); [discriminate|].
    injection Hk as <- _ _. eauto. }
  induction s as [|c s IH]; intros skip prev m H; cbn [Re.matches_from] in H.
  - destruct skip; [|contradiction].
    destruct (Re.match_here icase r false prev []) as [[[m0 p0] s0]|] eqn:E;
      [|contradiction].
    destruct (List.length (@nil ascii) - List.length s0)%nat.
    + destruct H as [<-|H]; [eauto|].
      destruct (Re.match_here icase r true prev []) as [[[m2 p2] s2]|] eqn:E2;
        [|contradiction].
      destruct H as [<-|[]]. eauto.
    + destruct H as [<-|[]]. eauto.
  - destruct skip; [|eauto].
    destruct (Re.match_here icase r false prev (c :: s)) as [[[m0 p0] s0]|] eqn:E;
      [|eauto].
    destruct (List.length (c :: s) - List.length s0)%nat.
    + destruct H as [<-|H]; [eauto|].
      destruct (Re.match_here icase r true prev (c :: s)) as [[[m2 p2] s2]|] eqn:E2;
        [|eauto].
      destruct H as [<-|H]; eauto.
    + destruct H as [<-|H]; eauto.
Qed.

Lemma search_matched (pattern text : str) (r : Re.regex) (m : Re.caps) :
  Re.compile pattern = Some r ->
  Re.search pattern text Re.IGNORECASE = Ok (Some m) ->
  exists prev0 t prev' s', Re.matched true r prev0 t [] prev' s' m.
Proof.
  intros Hr H. unfold Re.search, Re.compiled in H. rewrite Hr in H.
  cbn [bind] in H. injection H as H. eapply search_from_sound. exact H.
Qed.

Lemma search_binds (pattern text : str) (r : Re.regex) (m : Re.caps) (i : nat) :
  Re.compile pattern = Some r ->
  Re.search pattern text Re.IGNORECASE = Ok (Some m) ->
  binds i r = true ->
  Re.group m i <> None.
Proof.
  intros Hr H Hb. destruct (search_matched _ _ Hr H) as (p0 & t & p' & s' & Hm).
  apply (matched_binds i) in Hm. tauto.
Qed.

(** What a group of a successful search holds. *)
Lemma search_group (pattern text : str) (r : Re.regex) (m : Re.caps)
    (i : nat) (w : str) :
  Re.compile pattern = Some r ->
  plain_groups r = true ->
  Re.search pattern text Re.IGNORECASE = Ok (Some m) ->
  Re.group m i = Some w ->
  exists cs lo hi,
    In (i, (cs, lo, hi)) (groups_of r)
    /\ Forall (fun c => Re.accepts true cs c = true) w
    /\ (lo <= List.length w)%nat
    /\ (forall n, hi = Some n -> (List.length w <= n)%nat).
Proof.
  intros Hr Hp H Hg. destruct (search_matched _ _ Hr H) as (p0 & t & p' & s' & Hm).
  apply group_in in Hg.
  destruct (matched_groups Hm Hp _ _ Hg) as [[]|Hw]. exact Hw.
Qed.

(** ** The date section: when it raises *)

Lemma date_patterns_groups (p : str) :
  In p date_patterns ->
  exists r,
    Re.compile p = Some r /\ plain_groups r = true
    /\ binds 1 r = true /\ binds 3 r = true
    /\ (binds 2 r = true \/ p = nth 0 date_patterns [])
    /\ (forall i cs lo hi,
           In (i, (cs, lo, hi)) (groups_of r) ->
           (cs = letters /\ lo = 1%nat /\ hi = None)
           \/ (cs = [Re.Digit] /\ lo = 1%nat /\ hi = Some 2%nat)
           \/ (cs = [Re.Digit] /\ lo = 4%nat /\ hi = Some 4%nat)).
Proof.
  intros [<-|[<-|[<-|[<-|[]]]]];
    (eexists; split; [vm_compute; reflexivity|];
     split; [reflexivity|]; split; [reflexivity|]; split; [reflexivity|];
     split; [first [left; reflexivity|right; reflexivity]|];
     intros i cs lo hi H; simpl in H;
     repeat (destruct H as [H|H]; [injection H as <- <- <- <-; auto|]);
     contradiction).
Qed.

Lemma no_day_of (p : str) :
  In p date_patterns -> Str.contains (lit "day of") p = false.
Proof. intros [<-|[<-|[<-|[<-|[]]]]]; vm_compute; reflexivity. Qed.

Lemma date_field_raises_iff (text : str) (b : float) (e : exn) :
  date_field text b = Raise e
  <-> e = AttributeError "zfill"
      /\ exists m,
           first_match date_patterns text
           = Ok (Some (nth 0 date_patterns [], m))
           /\ Re.group m 2 = None.
Proof.
  unfold date_field.
  destruct (@first_match_returns date_patterns text eq_refl) as [found Hf].
  rewrite Hf. cbn [bind]. destruct found as [[p m]|].
  2:{ split; [discriminate|]. intros (_ & m & Hm & _). discriminate. }
  destruct (first_match_found _ _ Hf) as [Hin Hs].
  destruct (date_patterns_groups Hin) as (r & Hr & _ & Hb1 & Hb3 & Hb2 & _).
  pose proof (search_binds _ _ 1 Hr Hs Hb1) as H1.
  pose proof (search_binds _ _ 3 Hr Hs Hb3) as H3.
  assert (H2 : Re.group m 2 <> None \/ p = nth 0 date_patterns []).
  { destruct Hb2 as [Hb2 | ->]; [left|right; reflexivity].
    exact (search_binds _ _ 2 Hr Hs Hb2). }
  unfold date_value, method. rewrite (no_day_of Hin).
  destruct (Re.group m 1) as [g1|]; [|contradiction].
  destruct (Re.group m 3) as [g3|]; [|contradiction].
  destruct (Re.group m 2) as [g2|] eqn:Hg2.
  - destruct (Str.startswith (lit "(\d{4})") p); cbn [bind];
      (split; [discriminate|]); intros (_ & m' & Hm & Hn);
      injection Hm as _ <-; congruence.
  - destruct H2 as [H2| ->]; [contradiction|].
    change (Str.startswith (lit "(\d{4})") (nth 0 date_patterns [])) with false.
    cbn [bind]. split.
    + intros H. injection H as <-. split; [reflexivity|]. exists m. auto.
    + intros [-> _]. reflexivity.
Qed.

Lemma extract_raises_date (text : str) (b : float) (e : exn) :
  _extract_fields_from_text text b = Raise e <-> date_field text b = Raise e.
Proof.
  unfold _extract_fields_from_text.
  destruct (license_field_returns text b) as [license ->].
  destruct (@collect_names_returns name_patterns text eq_refl []) as [names ->].
  cbn [bind]. destruct (date_field text b); cbn [bind]; split;
    intros H; first [discriminate H|injection H as ->; reflexivity].
Qed.

(** X1.  The extractor raises exactly when the first date pattern to match is
    the "day of" pattern and the match has no day: [match.group(2)] is
    [None] and [zfill] is looked up on it.  The exception is that
    [AttributeError]; on every other text the extractor returns its four
    fields. *)
Theorem extractor_raises_iff (text : str) (b : float) (e : exn) :
  _extract_fields_from_text text b = Raise e
  <-> e = AttributeError "zfill"
      /\ exists m,
           first_match date_patterns text
           = Ok (Some (nth 0 date_patterns [], m))
           /\ Re.group m 2 = None.
Proof. rewrite extract_raises_date. apply date_field_raises_iff. Qed.

Lemma extractor_raises_iff_witness :
  _extract_fields_from_text (lit "15th day of June 1950") 0.9
  = Raise (AttributeError "zfill")
  /\ _extract_fields_from_text (lit "15th day of June 7, 1950") 0.9
     <> Raise (AttributeError "zfill").
Proof.
  split.
  - apply (proj2 (extractor_raises_iff (lit "15th day of June 1950") 0.9
                    (AttributeError "zfill"))).
    split; [reflexivity|].
    exists [(3%nat, lit "1950"); (1%nat, lit "June")].
    split; vm_compute; reflexivity.
  - intros H.
    apply (proj1 (extractor_raises_iff (lit "15th day of June 7, 1950") 0.9
                    (AttributeError "zfill"))) in H.
    destruct H as (_ & m & Hm & Hg). vm_compute in Hm.
    injection Hm as <-. vm_compute in Hg. discriminate Hg.
Defined.

(** ** The license number *)

Lemma token_not_space (c : ascii) :
  token_char c = true -> Char.isspace c = false.
Proof. ascii_cases c; vm_compute; intros H; first [reflexivity|discriminate H]. Qed.

Lemma license_patterns_tokens (p : str) :
  In p license_patterns ->
  exists r cs,
    Re.compile p = Some r /\ Re.closing_group r = Some (1%nat, cs)
    /\ forall c, Re.accepts true cs c = true -> token_char c = true.
Proof.
  intros [<-|[<-|[<-|[]]]];
    (eexists; eexists; split; [vm_compute; reflexivity|];
     split; [reflexivity|];
     intros c; ascii_cases c; vm_compute; intros H;
     first [reflexivity|discriminate H]).
Qed.

(** The loop with [break] stops at the first pattern of the list that
    matches: the patterns before it do not match. *)
Lemma first_match_prefix (patterns : list str) (text : str) p m :
  first_match patterns text = Ok (Some (p, m)) ->
  exists before after,
    patterns = before ++ p :: after
    /\ Forall (fun q => Re.search q text Re.IGNORECASE = Ok None) before
    /\ Re.search p text Re.IGNORECASE = Ok (Some m).
Proof.
  induction patterns as [|q rest IH]; simpl; [discriminate|].
  destruct (Re.search q text Re.IGNORECASE) as [[m0|]|e] eqn:Hs; cbn [bind].
  - intros H. injection H as <- <-. exists [], rest. auto.
  - intros H. destruct (IH H) as (before & after & -> & Hb & Hp).
    exists (q :: before), after. auto.
  - discriminate.
Qed.

Lemma license_field_set (text : str) (b : float) (fv : FieldValue) :
  license_field text b = Ok fv ->
  value fv <> [] ->
  exists p m,
    first_match license_patterns text = Ok (Some (p, m))
    /\ Re.group m 1 = Some (value fv)
    /\ Forall (fun c => token_char c = true) (value fv).
Proof.
  unfold license_field.
  destruct (first_match license_patterns text) as [[[p m]|]|e] eqn:Hf;
    cbn [bind]; [| |discriminate].
  - destruct (first_match_found _ _ Hf) as [Hin Hs].
    destruct (license_patterns_tokens Hin) as (r & cs & Hr & Hc & Hcs).
    destruct (search_closing_group _ _ Hr Hc Hs) as (w & Hg & Hne & Hall).
    assert (Htok : Forall (fun c => token_char c = true) w).
    { eapply Forall_impl; [|exact Hall]. exact Hcs. }
    rewrite Hg. cbn [method bind]. rewrite strip_solid.
    + intros H _. injection H as <-. exists p, m. auto.
    + eapply Forall_impl; [|exact Htok]. apply token_not_space.
  - intros H. injection H as <-. intros C. contradiction C. reflexivity.
Qed.

(** X2.  A license number the extractor returns holds no whitespace
    character, at its ends or inside: it is one unbroken token, and
    trimming it changes nothing. *)
Theorem license_value_has_no_whitespace (text : str) (b : float) (f : Fields) :
  _extract_fields_from_text text b = Ok f ->
  Forall (fun c => Char.isspace c = false) (value (license_number f))
  /\ Str.strip (value (license_number f)) = value (license_number f).
Proof.
  intros H. apply extract_fields_ok in H.
  destruct H as (license & names & date & Hl & _ & _ & ->).
  cbn [license_number].
  assert (Hsolid : Forall (fun c => Char.isspace c = false) (value license)).
  { destruct (value license) as [|c v] eqn:Hv; [constructor|].
    rewrite <- Hv.
    destruct (@license_field_set text b license Hl) as (p & m & _ & _ & Ht).
    - rewrite Hv. discriminate.
    - eapply Forall_impl; [|exact Ht]. apply token_not_space. }
  split; [exact Hsolid|]. apply strip_solid, Hsolid.
Qed.

Lemma license_value_has_no_whitespace_witness :
  exists f,
    _extract_fields_from_text (lit "License Number:  AB-12  issued") 0.8 = Ok f
    /\ value (license_number f) = lit "AB-12"
    /\ Forall (fun c => Char.isspace c = false) (value (license_number f))
    /\ Str.strip (value (license_number f)) = value (license_number f).
Proof.
  eexists. split; [vm_compute; reflexivity|]. split; [reflexivity|].
  apply (@license_value_has_no_whitespace
           (lit "License Number:  AB-12  issued") 0.8).
  vm_compute. reflexivity.
Defined.

(** X3.  The license number comes from the first of the three patterns, in
    their order, that matches the text: no pattern before it matches, and
    the value is its group 1. *)
Theorem license_first_pattern_wins (text : str) (b : float) (f : Fields) :
  _extract_fields_from_text text b = Ok f ->
  value (license_number f) <> [] ->
  exists before p after m,
    license_patterns = before ++ p :: after
    /\ Forall (fun q => Re.search q text Re.IGNORECASE = Ok None) before
    /\ Re.search p text Re.IGNORECASE = Ok (Some m)
    /\ Re.group m 1 = Some (value (license_number f)).
Proof.
  intros H Hne. apply extract_fields_ok in H.
  destruct H as (license & names & date & Hl & _ & _ & ->).
  cbn [license_number] in *.
  destruct (@license_field_set text b license Hl Hne) as (p & m & Hf & Hg & _).
  destruct (first_match_prefix _ _ Hf) as (before & after & Hp & Hb & Hs).
  exists before, p, after, m. auto.
Qed.

Lemma license_first_pattern_wins_witness :
  exists f m,
    _extract_fields_from_text (lit "no. 9, license no. 77, application no 5") 0.8
    = Ok f
    /\ value (license_number f) = lit "5"
    /\ Re.search (nth 2 license_patterns [])
         (lit "no. 9, license no. 77, application no 5") Re.IGNORECASE
       = Ok (Some m)
    /\ Re.group m 1 = Some (lit "9").
Proof.
  destruct (@license_first_pattern_wins
              (lit "no. 9, license no. 77, application no 5") 0.8
              {| license_number := {| value := lit "5"; confidence := 0.8 + 0.1 |};
                 name_spouse1 := no_field; name_spouse2 := no_field;
                 marriage_date := no_field |})
    as (before & p & after & m & _).
  - vm_compute. reflexivity.
  - discriminate.
  - eexists. eexists. split; [vm_compute; reflexivity|].
    split; [reflexivity|]. split; vm_compute; reflexivity.
Defined.

(** ** The shape of a date *)

Lemma digit_set (c : ascii) : Re.accepts true [Re.Digit] c = Char.isdecimal c.
Proof. ascii_cases c; vm_compute; reflexivity. Qed.

Lemma letters_set (c : ascii) : Re.accepts true letters c = letter c.
Proof. ascii_cases c; vm_compute; reflexivity. Qed.

Lemma digit_facts (c : ascii) :
  Char.isdecimal c = true ->
  (Ascii.eqb c "+" || Ascii.eqb c "-") = false /\ Re.is_alnum c = true.
Proof.
  ascii_cases c; vm_compute; intros H;
    first [split; reflexivity|discriminate H].
Qed.

Lemma letter_facts (c : ascii) :
  letter c = true ->
  (Ascii.eqb c "+" || Ascii.eqb c "-") = false /\ Re.is_alnum c = true
  /\ Char.isspace c = false.
Proof.
  ascii_cases c; vm_compute; intros H;
    first [repeat split; reflexivity|discriminate H].
Qed.

(** One or two digits, filled to two. *)
Lemma zfill_digits (w : str) :
  Forall (fun c => Char.isdecimal c = true) w ->
  (1 <= List.length w)%nat -> (List.length w <= 2)%nat ->
  List.length (Str.zfill 2 w) = 2%nat
  /\ Forall (fun c => Char.isdecimal c = true) (Str.zfill 2 w).
Proof.
  intros Hw Hlo Hhi.
  destruct w as [|a [|b [|c w]]]; simpl in Hlo, Hhi; try lia;
    inversion Hw as [|? ? Ha Hw']; subst;
    unfold Str.zfill; rewrite (proj1 (digit_facts _ Ha)); simpl;
    split; auto.
Qed.

(** A word of letters, filled to two. *)
Lemma zfill_word (w : str) :
  Forall (fun c => letter c = true) w ->
  (1 <= List.length w)%nat ->
  (2 <= List.length (Str.zfill 2 w))%nat
  /\ Forall (fun c => Re.is_alnum c = true) (Str.zfill 2 w).
Proof.
  intros Hw Hlo.
  assert (Hal : Forall (fun c => Re.is_alnum c = true) w).
  { eapply Forall_impl; [|exact Hw]. intros c Hc. apply letter_facts, Hc. }
  destruct w as [|a w]; simpl in Hlo; [lia|].
  inversion Hw as [|? ? Ha Hw']; subst.
  unfold Str.zfill. rewrite (proj1 (letter_facts _ Ha)).
  split.
  - rewrite length_app, repeat_length. cbn [List.length]. lia.
  - apply Forall_app. split; [|exact Hal].
    apply Forall_forall. intros x Hx. apply repeat_spec in Hx. subst.
    reflexivity.
Qed.

(** The text of group [i] of a match of a date pattern: a word of
    letters, one or two digits, or four digits. *)
Lemma date_group (p text : str) (m : Re.caps) (i : nat) (w : str) :
  In p date_patterns ->
  Re.search p text Re.IGNORECASE = Ok (Some m) ->
  Re.group m i = Some w ->
  exists r cs lo hi,
    Re.compile p = Some r
    /\ In (i, (cs, lo, hi)) (groups_of r)
    /\ Forall (fun c => Re.accepts true cs c = true) w
    /\ (lo <= List.length w)%nat
    /\ (forall n, hi = Some n -> (List.length w <= n)%nat).
Proof.
  intros Hin Hs Hg.
  destruct (date_patterns_groups Hin) as (r & Hr & Hp & _).
  destruct (search_group _ _ _ Hr Hp Hs Hg) as (cs & lo & hi & H).
  exists r, cs, lo, hi. tauto.
Qed.

Ltac group_facts Hin Hs Hg :=
  let r := fresh "r" in
  let cs := fresh "cs" in
  let lo := fresh "lo" in
  let hi := fresh "hi" in
  let Hr := fresh "Hr" in
  let HI := fresh "HI" in
  let Hall := fresh "Hall" in
  let Hlo := fresh "Hlo" in
  let Hhi := fresh "Hhi" in
  destruct (date_group _ _ Hin Hs Hg)
    as (r & cs & lo & hi & Hr & HI & Hall & Hlo & Hhi);
  vm_compute in Hr; injection Hr as <-; simpl in HI;
  repeat (destruct HI as [HI|HI]; try discriminate HI);
  try contradiction;
  injection HI as <- <- <-.

Ltac digits_of H :=
  apply (Forall_impl (fun c => Char.isdecimal c = true)
           (fun c Hc => eq_trans (eq_sym (digit_set c)) Hc)) in H.

Ltac letters_of H :=
  apply (Forall_impl (fun c => letter c = true)
           (fun c Hc => eq_trans (eq_sym (letters_set c)) Hc)) in H.

Lemma date_value_shaped (p text : str) (m : Re.caps) (v : str) :
  In p date_patterns ->
  Re.search p text Re.IGNORECASE = Ok (Some m) ->
  date_value p m = Ok v ->
  date_shaped v.
Proof.
  intros Hin Hs Hv.
  destruct (date_patterns_groups Hin) as (r0 & Hr0 & _ & Hb1 & Hb3 & _).
  pose proof (search_binds _ _ 1 Hr0 Hs Hb1) as H1.
  pose proof (search_binds _ _ 3 Hr0 Hs Hb3) as H3.
  clear r0 Hr0 Hb1 Hb3.
  unfold date_value, method in Hv. rewrite (no_day_of Hin) in Hv.
  destruct (Re.group m 1) as [g1|] eqn:Hg1; [|contradiction].
  destruct (Re.group m 3) as [g3|] eqn:Hg3; [|contradiction].
  clear H1 H3.
  pose proof Hin as Hcase.
  destruct Hcase as [E|[E|[E|[E|[]]]]]; subst p;
    match type of Hv with
    | context [Str.startswith ?a ?b] =>
        let c := eval vm_compute in (Str.startswith a b) in
        change (Str.startswith a b) with c in Hv
    end;
    (destruct (Re.group m 2) as [g2|] eqn:Hg2; [|discriminate Hv]);
    cbn [bind fmt] in Hv; injection Hv as <-;
    group_facts Hin Hs Hg1; group_facts Hin Hs Hg2; group_facts Hin Hs Hg3.
  - letters_of Hall. digits_of Hall0. digits_of Hall1.
    destruct (zfill_word Hall Hlo) as [Hm1 Hm2].
    destruct (zfill_digits Hall0 Hlo0 (Hhi0 _ eq_refl)) as [Hd1 Hd2].
    exists g3, (Str.zfill 2 g1), (Str.zfill 2 g2).
    pose proof (Hhi1 _ eq_refl). repeat split; auto; lia.
  - digits_of Hall. digits_of Hall0. digits_of Hall1.
    destruct (zfill_digits Hall Hlo (Hhi _ eq_refl)) as [Hm1 Hm2].
    destruct (zfill_digits Hall0 Hlo0 (Hhi0 _ eq_refl)) as [Hd1 Hd2].
    exists g3, (Str.zfill 2 g1), (Str.zfill 2 g2).
    pose proof (Hhi1 _ eq_refl). repeat split; auto; try lia.
    eapply Forall_impl; [|exact Hm2]. intros c Hc. apply digit_facts, Hc.
  - digits_of Hall. digits_of Hall0. digits_of Hall1.
    destruct (zfill_digits Hall0 Hlo0 (Hhi0 _ eq_refl)) as [Hm1 Hm2].
    destruct (zfill_digits Hall1 Hlo1 (Hhi1 _ eq_refl)) as [Hd1 Hd2].
    exists g1, (Str.zfill 2 g2), (Str.zfill 2 g3).
    pose proof (Hhi _ eq_refl). repeat split; auto; try lia.
    eapply Forall_impl; [|exact Hm2]. intros c Hc. apply digit_facts, Hc.
  - letters_of Hall. digits_of Hall0. digits_of Hall1.
    destruct (zfill_word Hall Hlo) as [Hm1 Hm2].
    destruct (zfill_digits Hall0 Hlo0 (Hhi0 _ eq_refl)) as [Hd1 Hd2].
    exists g3, (Str.zfill 2 g1), (Str.zfill 2 g2).
    pose proof (Hhi1 _ eq_refl). repeat split; auto; lia.
Qed.

Lemma alnum_field_char (c : ascii) :
  Re.is_alnum c = true -> field_char c = true.
Proof.
  ascii_cases c; vm_compute; intros H; first [reflexivity|discriminate H].
Qed.

Lemma date_shaped_fields (v : str) : date_shaped v -> date_fields v.
Proof.
  intros (year & month & day & -> & Hy & Dy & Hm & Dm & Hd & Dd).
  exists year, month, day. repeat split; auto.
  apply Forall_app; split; [|apply Forall_app; split].
  - eapply Forall_impl; [|exact Dy].
    intros c Hc. apply alnum_field_char, digit_facts, Hc.
  - eapply Forall_impl; [|exact Dm]. exact alnum_field_char.
  - eapply Forall_impl; [|exact Dd].
    intros c Hc. apply alnum_field_char, digit_facts, Hc.
Qed.

(** X4.  A date the extractor returns has three fields joined by two hyphens:
    a year of four characters, a month field of at least two characters and
    a day field of two characters, a one-character month or day being
    filled to two.  No field holds a hyphen or whitespace, so the value
    splits at its hyphens in one way only. *)
Theorem date_value_fields (text : str) (b : float) (f : Fields) :
  _extract_fields_from_text text b = Ok f ->
  value (marriage_date f) <> [] ->
  date_fields (value (marriage_date f)).
Proof.
  intros H Hne. apply extract_fields_ok in H.
  destruct H as (license & names & date & _ & _ & Hd & ->).
  cbn [marriage_date] in *. apply date_field_cases in Hd.
  destruct Hd as [[_ ->]|(p & m & v & Hf & Hv & _ & ->)];
    [contradiction Hne; reflexivity|].
  destruct (first_match_found _ _ Hf) as [Hin Hs].
  apply date_shaped_fields. exact (date_value_shaped _ Hin Hs Hv).
Qed.

Lemma date_value_fields_witness :
  exists f,
    _extract_fields_from_text (lit "on 6/5/1950 at noon") 0.7 = Ok f
    /\ value (marriage_date f) = lit "1950-06-05"
    /\ date_fields (value (marriage_date f)).
Proof.
  eexists. split; [vm_compute; reflexivity|]. split; [reflexivity|].
  apply (@date_value_fields (lit "on 6/5/1950 at noon") 0.7).
  - vm_compute. reflexivity.
  - discriminate.
Defined.

(** ** Trimming *)

Lemma dropwhile_head (f : ascii -> bool) (s : str) :
  Str.dropwhile f s = []
  \/ exists c t, Str.dropwhile f s = c :: t /\ f c = false.
Proof.
  induction s as [|c s IH]; simpl; [auto|].
  destruct (f c) eqn:E; [exact IH|]. right. eauto.
Qed.

Lemma dropwhile_sub (P : ascii -> Prop) (f : ascii -> bool) (s : str) :
  Forall P s -> Forall P (Str.dropwhile f s).
Proof.
  induction 1 as [|c s Hc Hs IH]; simpl; [constructor|].
  destruct (f c); [exact IH|]. constructor; assumption.
Qed.

Lemma dropwhile_snoc (f : ascii -> bool) (l : str) (c : ascii) :
  f c = false -> Str.dropwhile f (l ++ [c]) = Str.dropwhile f l ++ [c].
Proof.
  intros Hc. induction l as [|x l IH]; simpl; [rewrite Hc; reflexivity|].
  destruct (f x); [exact IH|reflexivity].
Qed.

Lemma strip_sub (P : ascii -> Prop) (s : str) :
  Forall P s -> Forall P (Str.strip s).
Proof.
  intros H. unfold Str.strip, Str.rstrip, Str.lstrip.
  apply Forall_rev, dropwhile_sub, Forall_rev, dropwhile_sub, H.
Qed.

(** A trimmed string is empty, or starts and ends with characters that
    are not whitespace. *)
Lemma strip_ends (s : str) :
  Str.strip s = []
  \/ (exists a t, Str.strip s = a :: t /\ Char.isspace a = false)
     /\ (exists t z, Str.strip s = t ++ [z] /\ Char.isspace z = false).
Proof.
  unfold Str.strip, Str.rstrip, Str.lstrip.
  destruct (dropwhile_head Char.isspace s) as [->|(c & t & -> & Hc)];
    [left; reflexivity|].
  right. simpl rev. rewrite (dropwhile_snoc _ _ _ Hc), rev_app_distr. simpl.
  split; [eauto|].
  destruct (dropwhile_head Char.isspace (rev t)) as [->|(z & u & -> & Hz)].
  - exists [], c. auto.
  - exists (c :: rev u), z. simpl. auto.
Qed.

Lemma strip_fixed (v : str) :
  (exists a t, v = a :: t /\ Char.isspace a = false) ->
  (exists t z, v = t ++ [z] /\ Char.isspace z = false) ->
  Str.strip v = v.
Proof.
  intros (a & t & Ha & Hsa) (u & z & Hz & Hsz).
  unfold Str.strip, Str.rstrip, Str.lstrip.
  assert (E1 : Str.dropwhile Char.isspace v = v).
  { rewrite Ha. simpl. rewrite Hsa. reflexivity. }
  rewrite E1. rewrite Hz at 1. rewrite rev_app_distr. simpl. rewrite Hsz.
  change (z :: rev u) with (rev [z] ++ rev u).
  rewrite <- rev_app_distr, rev_involutive. auto.
Qed.

Lemma strip_strip (s : str) : Str.strip (Str.strip s) = Str.strip s.
Proof.
  destruct (strip_ends s) as [->|[H1 H2]]; [reflexivity|].
  apply strip_fixed; assumption.
Qed.

(** ** The names *)

Lemma fresh_not_in (names : list str) (y : str) :
  negb (existsb (str_eqb y) names) = true -> ~ In y names.
Proof.
  intros H Hin. apply negb_true_iff in H.
  assert (E : existsb (str_eqb y) names = true).
  { apply existsb_exists. exists y. split; [exact Hin|].
    apply str_eqb_true. reflexivity. }
  congruence.
Qed.

Lemma nodup_snoc (l : list str) (y : str) :
  NoDup l -> ~ In y l -> NoDup (l ++ [y]).
Proof.
  intros Hl Hy. induction Hl as [|x l Hx Hl IH]; simpl.
  - constructor; [auto|constructor].
  - constructor.
    + intros Hin. apply in_app_or in Hin. destruct Hin as [Hin|[E|[]]].
      * contradiction.
      * subst. apply Hy. left. reflexivity.
    + apply IH. intros Hin. apply Hy. right. exact Hin.
Qed.

Lemma keep_invariant (names : list str) (found : str) :
  Forall (fun c => name_char c = true) found ->
  NoDup names /\ Forall kept_ok names ->
  NoDup (keep names found) /\ Forall kept_ok (keep names found).
Proof.
  intros Hf [Hn Hk]. unfold keep.
  destruct (2 <? List.length (Str.strip found))%nat eqn:Hl; simpl andb;
    [|auto].
  destruct (negb (existsb (str_eqb (Str.strip found)) names)) eqn:Hfresh;
    [|auto].
  split.
  - apply nodup_snoc; [exact Hn|]. apply fresh_not_in, Hfresh.
  - apply Forall_app. split; [exact Hk|]. constructor; [|constructor].
    split; [apply Nat.ltb_lt, Hl|].
    split; [apply strip_sub, Hf|apply strip_strip].
Qed.

Lemma fold_keep_invariant (found : list str) :
  forall names,
    Forall (Forall (fun c => name_char c = true)) found ->
    NoDup names /\ Forall kept_ok names ->
    NoDup (fold_left keep found names)
    /\ Forall kept_ok (fold_left keep found names).
Proof.
  induction found as [|x found IH]; intros names Hf Hn; simpl; [exact Hn|].
  inversion Hf; subst. apply IH; [assumption|].
  apply keep_invariant; assumption.
Qed.

Lemma name_set (c : ascii) :
  Re.accepts true [Re.Range "A" "Z"; Re.Range "a" "z"; Re.Space] c
  = name_char c.
Proof. ascii_cases c; vm_compute; reflexivity. Qed.

Lemma name_patterns_groups (p : str) :
  In p name_patterns ->
  exists r,
    Re.compile p = Some r /\ plain_groups r = true
    /\ groups_of r
       = [(1%nat, ([Re.Range "A" "Z"; Re.Range "a" "z"; Re.Space], 1%nat, None))].
Proof.
  intros [<-|[<-|[<-|[]]]];
    (eexists; split; [vm_compute; reflexivity|]; split; reflexivity).
Qed.

(** Each string [re.findall] gives for a name pattern is made of letters
    and whitespace. *)
Lemma findall_name_chars (p text : str) (found : list str) :
  In p name_patterns ->
  Re.findall p text Re.IGNORECASE = Ok found ->
  Forall (Forall (fun c => name_char c = true)) found.
Proof.
  intros Hin H. destruct (name_patterns_groups Hin) as (r & Hr & Hp & Hg).
  unfold Re.findall, Re.compiled in H. rewrite Hr in H. cbn [bind] in H.
  injection H as <-. apply Forall_forall. intros x Hx.
  apply in_map_iff in Hx. destruct Hx as (m & <- & Hm).
  apply matches_from_sound in Hm. destruct Hm as (p0 & t & p' & s' & Hm).
  destruct (Re.group m 1) as [g|] eqn:Hgm; [|constructor].
  apply group_in in Hgm.
  destruct (matched_groups Hm Hp _ _ Hgm) as [[]|(cs & lo & hi & HI & Hall & _)].
  rewrite Hg in HI. destruct HI as [HI|[]]. injection HI as <- _ _.
  eapply Forall_impl; [|exact Hall]. intros c Hc.
  rewrite <- name_set. exact Hc.
Qed.

Lemma collect_names_invariant (patterns : list str) (text : str) :
  forall names out,
    incl patterns name_patterns ->
    collect_names patterns text names = Ok out ->
    NoDup names /\ Forall kept_ok names ->
    NoDup out /\ Forall kept_ok out.
Proof.
  induction patterns as [|p rest IH]; intros names out Hincl H Hn; simpl in H.
  - injection H as <-. exact Hn.
  - destruct (Re.findall p text Re.IGNORECASE) as [found|e] eqn:Hf;
      cbn [bind] in H; [|discriminate].
    eapply IH; [|exact H|].
    + intros q Hq. apply Hincl. right. exact Hq.
    + apply fold_keep_invariant; [|exact Hn].
      eapply findall_name_chars; [|exact Hf]. apply Hincl. left. reflexivity.
Qed.

Lemma name_char_plain (c : ascii) :
  name_char c = true -> plain_char c = true.
Proof.
  ascii_cases c; vm_compute; intros H; first [reflexivity|discriminate H].
Qed.

Lemma kept_ok_trimmed (v : str) : kept_ok v -> name_trimmed v.
Proof.
  intros (Hlong & Hall & Hstrip). unfold long_enough in Hlong.
  split; [exact Hstrip|]. split.
  - destruct (strip_ends v) as [E|[(a & t & Ha & Hsa) (u & z & Hz & Hsz)]].
    { rewrite Hstrip in E. subst v. simpl in Hlong. lia. }
    rewrite Hstrip in Ha, Hz.
    destruct u as [|a' mid].
    { rewrite Hz in Hlong. simpl in Hlong. lia. }
    assert (a' = a) by (rewrite Hz in Ha; simpl in Ha; congruence). subst a'.
    exists a, mid, z. repeat split; auto.
    intros ->. rewrite Hz in Hlong. simpl in Hlong. lia.
  - eapply Forall_impl; [|exact Hall]. exact name_char_plain.
Qed.

Lemma extract_names (text : str) (b : float) (f : Fields) :
  _extract_fields_from_text text b = Ok f ->
  exists names,
    NoDup names /\ Forall kept_ok names
    /\ name_spouse1 f = name_field 0 names b
    /\ name_spouse2 f = name_field 1 names b.
Proof.
  intros H. apply extract_fields_ok in H.
  destruct H as (license & names & date & _ & Hn & _ & ->).
  exists names.
  destruct (@collect_names_invariant name_patterns text [] names
              (incl_refl _) Hn) as [Hnd Hk].
  - split; constructor.
  - auto.
Qed.

(** X5.  The two name fields never hold the same name, and the second is
    filled only when the first is. *)
Theorem spouse_names_distinct (text : str) (b : float) (f : Fields) :
  _extract_fields_from_text text b = Ok f ->
  value (name_spouse2 f) <> [] ->
  value (name_spouse1 f) <> []
  /\ value (name_spouse1 f) <> value (name_spouse2 f).
Proof.
  intros H Hne. destruct (extract_names _ _ H) as (names & Hnd & Hk & E1 & E2).
  rewrite E1, E2 in *. clear E1 E2. unfold name_field in *.
  destruct names as [|x [|y names]]; simpl in *;
    try (contradiction Hne; reflexivity).
  inversion Hk as [|? ? (Hx & _) _]; subst.
  split.
  - intros ->. unfold long_enough in Hx. simpl in Hx. lia.
  - intros ->. inversion Hnd as [|? ? Hnot _]; subst. apply Hnot. left.
    reflexivity.
Qed.

Lemma spouse_names_distinct_witness :
  exists f,
    _extract_fields_from_text
      (lit "I, Ann Lee, of Troy and I, Ann Lee, do and Mr. Bob Ray, do") 0.7
    = Ok f
    /\ value (name_spouse1 f) = lit "Ann Lee"
    /\ value (name_spouse2 f) = lit "Bob Ray"
    /\ value (name_spouse1 f) <> value (name_spouse2 f).
Proof.
  eexists. split; [vm_compute; reflexivity|].
  split; [reflexivity|]. split; [reflexivity|].
  apply (@spouse_names_distinct
           (lit "I, Ann Lee, of Troy and I, Ann Lee, do and Mr. Bob Ray, do") 0.7).
  - vm_compute. reflexivity.
  - discriminate.
Defined.

(** X6.  A name the extractor returns is trimmed: it begins and ends with a
    character that is not whitespace, and trimming it changes nothing.  It
    has at least three characters, and none of them is a decimal digit, a
    comma or a period. *)
Theorem name_value_trimmed (text : str) (b : float) (f : Fields) :
  _extract_fields_from_text text b = Ok f ->
  (value (name_spouse1 f) <> [] -> name_trimmed (value (name_spouse1 f)))
  /\ (value (name_spouse2 f) <> [] -> name_trimmed (value (name_spouse2 f))).
Proof.
  intros H. destruct (extract_names _ _ H) as (names & _ & Hk & -> & ->).
  assert (Hslot : forall n,
             value (name_field n names b) <> [] ->
             name_trimmed (value (name_field n names b))).
  { intros n Hne. unfold name_field in *.
    destruct (n + 1 <=? List.length names)%nat eqn:Hl; simpl in *;
      [|contradiction Hne; reflexivity].
    apply kept_ok_trimmed. rewrite Forall_forall in Hk. apply Hk, nth_In.
    apply Nat.leb_le in Hl. lia. }
  split; apply Hslot.
Qed.

Lemma name_value_trimmed_witness :
  exists f,
    _extract_fields_from_text (lit "I,   Jane  Doe  , of Springfield") 0.7 = Ok f
    /\ value (name_spouse1 f) = lit "Jane  Doe"
    /\ name_trimmed (value (name_spouse1 f)).
Proof.
  eexists. split; [vm_compute; reflexivity|]. split; [reflexivity|].
  apply (proj1 (@name_value_trimmed (lit "I,   Jane  Doe  , of Springfield") 0.7 _
                  eq_refl)).
  discriminate.
Defined.

(** ** The estimator away from blank text *)

Lemma dropwhile_nil (f : ascii -> bool) (s : str) :
  Str.dropwhile f s = [] -> Forall (fun c => f c = true) s.
Proof.
  induction s as [|c s IH]; simpl; [constructor|].
  destruct (f c) eqn:E; [|discriminate]. intros H. constructor; auto.
Qed.

Lemma strip_nil_blank (s : str) :
  Str.strip s = [] -> Forall (fun c => Char.isspace c = true) s.
Proof.
  unfold Str.strip, Str.rstrip, Str.lstrip. intros H.
  apply (f_equal (@rev ascii)) in H. rewrite rev_involutive in H. simpl in H.
  apply dropwhile_nil, Forall_rev in H. rewrite rev_involutive in H.
  destruct (dropwhile_head Char.isspace s) as [E|(c & t & E & Hc)].
  - apply dropwhile_nil. exact E.
  - rewrite E in H. inversion H; subst. congruence.
Qed.

(** [n] tokens take at least [2 * n - 1] characters. *)
Lemma split_from_count (s : str) :
  forall cur,
    (2 * List.length (Str.split_from cur s)
     <= List.length s + match cur with [] => 1 | _ => 2 end)%nat.
Proof.
  induction s as [|c s IH]; intros cur; simpl.
  - destruct cur; simpl; lia.
  - destruct (Char.isspace c).
    + destruct cur; [specialize (IH []); simpl in IH; lia|].
      specialize (IH []). simpl in *. lia.
    + specialize (IH (c :: cur)). simpl in IH. destruct cur; lia.
Qed.

Lemma split_count (s : str) :
  (2 * List.length (Str.split s) <= List.length s + 1)%nat.
Proof. apply (split_from_count s []). Qed.

Lemma blank_test_true (text : str) :
  blank_test text = true <-> Forall (fun c => Char.isspace c = true) text.
Proof.
  unfold blank_test. split.
  - intros H. apply orb_prop in H. destruct H as [H|H].
    + destruct text; [constructor|discriminate].
    + apply Nat.eqb_eq in H. apply strip_nil_blank.
      destruct (Str.strip text); [reflexivity|discriminate].
  - intros H. rewrite (strip_blank H). apply orb_true_r.
Qed.

(** Away from blank text the estimate is at least 0.3, and at least 0.5
    when the text has five characters or more. *)
Lemma estimate_floor (text : str) :
  blank_test text = false ->
  (0.3 <=? _calculate_confidence text) = true
  /\ ((5 <= List.length text)%nat ->
      (0.5 <=? _calculate_confidence text) = true).
Proof.
  intros Hb. unfold _calculate_confidence. fold (blank_test text).
  rewrite Hb. cbv zeta.
  pose proof (split_count text) as Hcount.
  destruct (Nat.ltb_spec (List.length text) 5) as [Hshort|Hshort];
    destruct (Nat.ltb_spec 10 (List.length text)) as [Hten|Hten];
    destruct (Nat.ltb_spec 50 (List.length text)) as [Hfifty|Hfifty];
    destruct (Nat.ltb_spec 5 (List.length (Str.split text))) as [Htok|Htok];
    try (exfalso; lia);
    rewrite ?andb_false_r;
    split_ifs; (split; [vm_compute; reflexivity|]);
    intros Hlen; first [vm_compute; reflexivity|exfalso; lia].
Qed.

(** X7.  The estimator returns 0.0 for blank text only: every text with a
    character that is not whitespace gets a positive estimate. *)
Theorem estimate_zero_iff_blank (text : str) :
  _calculate_confidence text = 0.0
  <-> Forall (fun c => Char.isspace c = true) text.
Proof.
  rewrite <- blank_test_true. split.
  - intros H. destruct (blank_test text) eqn:Hb; [reflexivity|].
    destruct (estimate_floor text Hb) as [Hfloor _].
    rewrite H in Hfloor. vm_compute in Hfloor. discriminate Hfloor.
  - intros H. unfold _calculate_confidence. fold (blank_test text).
    rewrite H. reflexivity.
Qed.

(** X8.  A text with a character that is not whitespace gets at least 0.3,
    and at least 0.5 when it has five characters or more: the penalty for
    repeated tokens only meets texts that earn the bonus for length. *)
Theorem estimate_floor_of_text (text : str) :
  Exists (fun c => Char.isspace c = false) text ->
  (0.3 <=? _calculate_confidence text) = true
  /\ ((5 <= List.length text)%nat ->
      (0.5 <=? _calculate_confidence text) = true).
Proof.
  intros H. apply estimate_floor.
  destruct (blank_test text) eqn:Hb; [|reflexivity].
  apply blank_test_true in Hb. apply Exists_exists in H.
  destruct H as (c & Hin & Hc). rewrite Forall_forall in Hb.
  specialize (Hb c Hin). congruence.
Qed.

Lemma estimate_floor_of_text_witness :
  Exists (fun c => Char.isspace c = false) (lit "a a a a a a")
  /\ _calculate_confidence (lit "a a a a a a") = 0.5
  /\ (0.5 <=? _calculate_confidence (lit "a a a a a a")) = true
  /\ _calculate_confidence (lit " x ") = 0.3.
Proof.
  split; [left; reflexivity|]. split; [vm_compute; reflexivity|].
  split; [|vm_compute; reflexivity].
  apply (@estimate_floor_of_text (lit "a a a a a a")).
  - left; reflexivity.
  - simpl. lia.
Defined.

(** ** The service *)

Lemma estimate_range (text : str) :
  (0.0 <=? _calculate_confidence text) = true
  /\ (_calculate_confidence text <=? 1.0) = true
  /\ (0.0 <=? _calculate_confidence text + 0.1) = true
  /\ (_calculate_confidence text + 0.1 <=? 1.0 + 0.1) = true.
Proof.
  unfold _calculate_confidence. fold (blank_test text).
  destruct (blank_test text).
  - repeat split; reflexivity.
  - cbv zeta. split_ifs; repeat split; vm_compute; reflexivity.
Qed.


Section ServiceProperties.

Variable image : Type.
Variable loaded : bool.
Variable generate : image -> str + str.
Variable image_path : image.

(** X9.  What [extract_text_from_image] returns, whatever the engine does:
    [error] is [None] exactly on success; a failure carries the empty
    text and confidence 0.0; the text is trimmed and the confidence lies
    between 0.0 and 1.0. *)
Theorem transcription_outcome_invariants :
  let outcome := extract_text_from_image loaded generate image_path in
  (o_success outcome = true <-> o_error outcome = None)
  /\ (o_success outcome = false ->
      o_text outcome = [] /\ o_confidence outcome = 0.0)
  /\ Str.strip (o_text outcome) = o_text outcome
  /\ (0.0 <=? o_confidence outcome) = true
  /\ (o_confidence outcome <=? 1.0) = true.
Proof.
  cbv zeta. unfold extract_text_from_image.
  destruct loaded; cbn [negb].
  - destruct (generate image_path) as [t|msg]; cbn.
    + repeat split; try discriminate; try reflexivity.
      * apply strip_strip.
      * apply estimate_range.
      * apply estimate_range.
    + repeat split; try discriminate; reflexivity.
  - cbn. repeat split; try discriminate; reflexivity.
Qed.

(** X10.  What the service returns.  A result with [success] false has an empty
    [raw_text], the four fields at {"", 0.0} and an error message.  A
    result with [success] true has no error; the engine returned a text,
    [raw_text] is that text trimmed, and the fields are what the extractor
    gives for the trimmed text with the estimate of the untrimmed text as
    base confidence. *)
Theorem service_result (r : ExtractionResult) :
  extract_marriage_license_fields loaded generate image_path = Ok r ->
  (success r = false ->
   raw_text r = [] /\ fields r = no_fields /\ error r <> None)
  /\ (success r = true ->
      error r = None
      /\ exists generated_text,
           loaded = true
           /\ generate image_path = inl generated_text
           /\ raw_text r = Str.strip generated_text
           /\ _extract_fields_from_text (Str.strip generated_text)
                (_calculate_confidence generated_text)
              = Ok (fields r)).
Proof.
  unfold extract_marriage_license_fields, extract_text_from_image, assemble.
  destruct loaded; cbn [negb].
  - destruct (generate image_path) as [t|msg];
      cbn [o_success o_text o_confidence o_error negb].
    + destruct (_extract_fields_from_text (Str.strip t) (_calculate_confidence t))
        as [f|e] eqn:Hf; cbn [bind]; [|discriminate].
      intros H. injection H as <-. cbn. split; [discriminate|].
      intros _. split; [reflexivity|]. exists t. auto.
    + intros H. injection H as <-. cbn. split; [|discriminate].
      intros _. repeat split. discriminate.
  - cbn [o_success o_text o_confidence o_error negb].
    intros H. injection H as <-. cbn. split; [|discriminate].
    intros _. repeat split. discriminate.
Qed.

(** X11.  A blank transcription is a success with nothing in it: the service
    returns the four fields at {"", 0.0}, an empty [raw_text], [success]
    true and no error. *)
Theorem blank_transcription (generated_text : str) :
  loaded = true ->
  generate image_path = inl generated_text ->
  Forall (fun c => Char.isspace c = true) generated_text ->
  extract_marriage_license_fields loaded generate image_path
  = Ok {| fields := no_fields; raw_text := []; success := true;
          error := None |}.
Proof.
  intros Hl Hg Hb.
  unfold extract_marriage_license_fields, extract_text_from_image, assemble.
  rewrite Hl, Hg. cbn [negb o_success o_text o_confidence].
  rewrite (strip_blank Hb). reflexivity.
Qed.


(** X13.  The service raises, instead of returning a failure record, exactly
    when the engine returned a text on whose trimmed form the first date
    pattern to match is the "day of" pattern without a day; the exception
    is the [AttributeError] of [zfill]. *)
Theorem service_raises_iff (e : exn) :
  extract_marriage_license_fields loaded generate image_path = Raise e
  <-> loaded = true
      /\ e = AttributeError "zfill"
      /\ exists generated_text m,
           generate image_path = inl generated_text
           /\ first_match date_patterns (Str.strip generated_text)
              = Ok (Some (nth 0 date_patterns [], m))
           /\ Re.group m 2 = None.
Proof.
  unfold extract_marriage_license_fields, extract_text_from_image, assemble.
  destruct loaded; cbn [negb].
  - destruct (generate image_path) as [t|msg];
      cbn [o_success o_text o_confidence o_error negb].
    + destruct (_extract_fields_from_text (Str.strip t) (_calculate_confidence t))
        as [f|e0] eqn:Hf; cbn [bind].
      * split; [discriminate|].
        intros (_ & -> & t' & m & Ht & Hm & Hg). injection Ht as <-.
        assert (Hr : _extract_fields_from_text (Str.strip t)
                       (_calculate_confidence t)
                     = Raise (AttributeError "zfill")).
        { apply extract_raises_date, date_field_raises_iff. eauto. }
        congruence.
      * apply extract_raises_date, date_field_raises_iff in Hf.
        destruct Hf as (-> & m & Hm & Hg). split.
        -- intros H. injection H as <-. repeat split. eauto.
        -- intros (_ & -> & _). reflexivity.
    + split; [discriminate|]. intros (_ & _ & t' & m & Ht & _). discriminate.
  - split; [discriminate|]. intros (H & _). discriminate.
Qed.

End ServiceProperties.

Lemma service_result_witness :
  exists r,
    extract_marriage_license_fields true
      (fun _ : unit => inl (lit "  License No. 77, I, Jane Doe, of Troy  ")) tt
    = Ok r
    /\ success r = true
    /\ error r = None
    /\ raw_text r = lit "License No. 77, I, Jane Doe, of Troy".
Proof.
  destruct (extract_marriage_license_fields true
              (fun _ : unit => inl (lit "  License No. 77, I, Jane Doe, of Troy  "))
              tt) as [r|e] eqn:H;
    [|vm_compute in H; discriminate H].
  exists r. split; [reflexivity|].
  assert (Hsuccess : success r = true).
  { vm_compute in H. injection H as <-. reflexivity. }
  destruct (proj2 (@service_result unit true _ tt r H) Hsuccess)
    as (Herr & t & _ & Ht & Hraw & _).
  split; [exact Hsuccess|]. split; [exact Herr|].
  injection Ht as <-. rewrite Hraw. vm_compute. reflexivity.
Defined.

Lemma blank_transcription_witness :
  extract_marriage_license_fields true (fun _ : unit => inl (lit "   ")) tt
  = Ok {| fields := no_fields; raw_text := []; success := true;
          error := None |}.
Proof.
  apply (@blank_transcription unit true (fun _ : unit => inl (lit "   ")) tt
           (lit "   ") eq_refl eq_refl).
  repeat constructor.
Defined.


Lemma service_raises_iff_witness :
  extract_marriage_license_fields true
    (fun _ : unit => inl (lit " this 15th day of June 1950 ")) tt
  = Raise (AttributeError "zfill").
Proof.
  apply (proj2 (@service_raises_iff unit true
                  (fun _ : unit => inl (lit " this 15th day of June 1950 ")) tt
                  (AttributeError "zfill"))).
  split; [reflexivity|]. split; [reflexivity|].
  exists (lit " this 15th day of June 1950 "),
         [(3%nat, lit "1950"); (1%nat, lit "June")].
  split; [reflexivity|]. split; vm_compute; reflexivity.
Defined.

(** ** The base confidence decides no value *)

(** X14.  The values of the four fields, and whether the extractor raises, are
    the same for every base confidence: the base only enters the
    confidences. *)
Theorem values_independent_of_base (text : str) (b b' : float) :
  values_of (_extract_fields_from_text text b)
  = values_of (_extract_fields_from_text text b').
Proof.
  unfold values_of, _extract_fields_from_text, license_field, date_field.
  destruct (first_match license_patterns text) as [[[p m]|]|e]; cbn [bind];
    [|destruct (collect_names name_patterns text []) as [names|e]; cbn [bind]
     |reflexivity].
  - unfold method. destruct (Re.group m 1) as [g|]; cbn [bind]; [|reflexivity].
    destruct (collect_names name_patterns text []) as [names|e]; cbn [bind];
      [|reflexivity].
    destruct (first_match date_patterns text) as [[[q n]|]|e]; cbn [bind];
      [destruct (date_value q n) as [v|e]; cbn [bind]| |];
      unfold name_field;
      repeat match goal with
             | |- context [(?a <=? ?c)%nat] => destruct (a <=? c)%nat
             end; reflexivity.
  - destruct (first_match date_patterns text) as [[[q n]|]|e]; cbn [bind];
      [destruct (date_value q n) as [v|e]; cbn [bind]| |];
      unfold name_field;
      repeat match goal with
             | |- context [(?a <=? ?c)%nat] => destruct (a <=? c)%nat
             end; reflexivity.
  - reflexivity.
Qed.

(** ** What is extracted stands in the text *)

Lemma occurs_refl (s : str) : occurs_in s s.
Proof. exists [], []. simpl. symmetry. apply app_nil_r. Qed.

Lemma occurs_nil (s : str) : occurs_in [] s.
Proof. exists [], s. reflexivity. Qed.

Lemma occurs_trans (a b c : str) :
  occurs_in a b -> occurs_in b c -> occurs_in a c.
Proof.
  intros (x & y & ->) (u & v & ->). exists (u ++ x), (y ++ v).
  rewrite <- !app_assoc. reflexivity.
Qed.

Lemma occurs_after (g s pre : str) : occurs_in g s -> occurs_in g (pre ++ s).
Proof.
  intros (x & y & ->). exists (pre ++ x), y. rewrite <- app_assoc. reflexivity.
Qed.

Lemma occurs_char (g s : str) (c : ascii) :
  occurs_in g s -> In c g -> In c s.
Proof.
  intros (x & y & ->) H. apply in_or_app. right. apply in_or_app. auto.
Qed.

Lemma matched_split icase (r : Re.regex) prev s m prev' s' m' :
  Re.matched icase r prev s m prev' s' m' -> exists w, s = w ++ s'.
Proof.
  induction 1 as [prev s m|cs c prev s m _|cs lo hi greedy w prev s m _ _ _
                 |r prev s m prev' s' m' _ IH|r prev s m
                 |r1 r2 prev s m prev1 s1 m1 prev2 s2 m2 _ IH1 _ IH2
                 |r1 r2 prev s m prev' s' m' _ IH
                 |r1 r2 prev s m prev' s' m' _ IH
                 |j r prev s m prev' s' m' _ IH|prev s m _].
  - exists []. reflexivity.
  - exists [c]. reflexivity.
  - exists w. reflexivity.
  - exact IH.
  - exists []. reflexivity.
  - destruct IH1 as [w1 ->]. destruct IH2 as [w2 ->].
    exists (w1 ++ w2). rewrite app_assoc. reflexivity.
  - exact IH.
  - exact IH.
  - exact IH.
  - exists []. reflexivity.
Qed.

(** A binding after a match was there before, or stands in the text the
    match started at. *)
Lemma matched_within icase (r : Re.regex) prev s m prev' s' m' :
  Re.matched icase r prev s m prev' s' m' ->
  forall i g, In (i, g) m' -> In (i, g) m \/ occurs_in g s.
Proof.
  induction 1 as [prev s m|cs c prev s m _|cs lo hi greedy w prev s m _ _ _
                 |r prev s m prev' s' m' _ IH|r prev s m
                 |r1 r2 prev s m prev1 s1 m1 prev2 s2 m2 H1 IH1 _ IH2
                 |r1 r2 prev s m prev' s' m' _ IH
                 |r1 r2 prev s m prev' s' m' _ IH
                 |j r prev s m prev' s' m' Hm IH|prev s m _];
    intros i g Hin; auto.
  - destruct (IH2 i g Hin) as [Hin1|Hocc]; [auto|].
    right. destruct (matched_split H1) as [w1 ->]. apply occurs_after, Hocc.
  - destruct Hin as [E|Hin]; [|auto].
    injection E as <- <-. right.
    destruct (matched_split Hm) as [w ->]. rewrite firstn_consumed.
    exists [], s'. reflexivity.
Qed.

Lemma search_from_within icase (r : Re.regex) (s : str) :
  forall prev m i g,
    Re.search_from icase r prev s = Some m ->
    In (i, g) m -> occurs_in g s.
Proof.
  assert (Hhere : forall prev (t : str) m p' s' i g,
             Re.match_here icase r false prev t = Some (m, p', s') ->
             In (i, g) m -> occurs_in g t).
  { intros prev t m p' s' i g H Hin. unfold Re.match_here in H.
    apply run_sound in H. destruct H as (p1 & s1 & m1 & Hm & Hk).
    simpl in Hk. injection Hk as <- _ _.
    destruct (matched_within Hm _ _ Hin) as [[]|Hocc]. exact Hocc. }
  induction s as [|c s IH]; intros prev m i g H Hin; simpl in H.
  - destruct (Re.match_here icase r false prev []) as [[[m0 p0] s0]|] eqn:E;
      [|discriminate].
    injection H as <-. eapply Hhere; eassumption.
  - destruct (Re.match_here icase r false prev (c :: s)) as [[[m0 p0] s0]|] eqn:E.
    + injection H as <-. eapply Hhere; eassumption.
    + apply (occurs_after [c]). eapply IH; eassumption.
Qed.

Lemma matches_from_within icase (r : Re.regex) (s : str) :
  forall skip prev m i g,
    In m (Re.matches_from icase r skip prev s) ->
    In (i, g) m -> occurs_in g s.
Proof.
  assert (Hhere : forall adv prev (t : str) m p' s' i g,
             Re.match_here icase r adv prev t = Some (m, p', s') ->
             In (i, g) m -> occurs_in g t).
  { intros adv prev t m p' s' i g H Hin. unfold Re.match_here in H.
    apply run_sound in H. destruct H as (p1 & s1 & m1 & Hm & Hk).
    destruct (adv && (List.length s1 =? List.length t)%nat); [discriminate|].
    injection Hk as <- _ _.
    destruct (matched_within Hm _ _ Hin) as [[]|Hocc]. exact Hocc. }
  induction s as [|c s IH]; intros skip prev m i g H Hin;
    cbn [Re.matches_from] in H.
  - destruct skip; [|contradiction].
    destruct (Re.match_here icase r false prev []) as [[[m0 p0] s0]|] eqn:E;
      [|contradiction].
    destruct (List.length (@nil ascii) - List.length s0)%nat.
    + destruct H as [<-|H]; [eapply Hhere; eassumption|].
      destruct (Re.match_here icase r true prev []) as [[[m2 p2] s2]|] eqn:E2;
        [|contradiction].
      destruct H as [<-|[]]. eapply Hhere; eassumption.
    + destruct H as [<-|[]]. eapply Hhere; eassumption.
  - assert (Hnext : forall k p,
               In m (Re.matches_from icase r k p s) -> occurs_in g (c :: s)).
    { intros k p Hk. apply (occurs_after [c]). eapply IH; eassumption. }
    destruct skip; [|eauto].
    destruct (Re.match_here icase r false prev (c :: s)) as [[[m0 p0] s0]|] eqn:E;
      [|eauto].
    destruct (List.length (c :: s) - List.length s0)%nat.
    + destruct H as [<-|H]; [eapply Hhere; eassumption|].
      destruct (Re.match_here icase r true prev (c :: s)) as [[[m2 p2] s2]|] eqn:E2;
        [|eauto].
      destruct H as [<-|H]; [eapply Hhere; eassumption|eauto].
    + destruct H as [<-|H]; [eapply Hhere; eassumption|eauto].
Qed.

Lemma search_within (pattern text : str) (m : Re.caps) (i : nat) (g : str) :
  Re.search pattern text Re.IGNORECASE = Ok (Some m) ->
  Re.group m i = Some g ->
  occurs_in g text.
Proof.
  unfold Re.search, Re.compiled. destruct (Re.compile pattern) as [r|];
    cbn [bind]; [|discriminate].
  intros H Hg. injection H as H. apply group_in in Hg.
  eapply search_from_within; eassumption.
Qed.

Lemma findall_within (pattern text : str) (found : list str) :
  Re.findall pattern text Re.IGNORECASE = Ok found ->
  Forall (fun x => occurs_in x text) found.
Proof.
  unfold Re.findall, Re.compiled. destruct (Re.compile pattern) as [r|];
    cbn [bind]; [|discriminate].
  intros H. injection H as <-. apply Forall_forall. intros x Hx.
  apply in_map_iff in Hx. destruct Hx as (m & <- & Hm).
  destruct (Re.group m 1) as [g|] eqn:Hg; [|apply occurs_nil].
  apply group_in in Hg. eapply matches_from_within; eassumption.
Qed.

Lemma dropwhile_suffix (f : ascii -> bool) (s : str) :
  exists a, s = a ++ Str.dropwhile f s.
Proof.
  induction s as [|c s [a IH]]; simpl; [exists []; reflexivity|].
  destruct (f c); [|exists []; reflexivity].
  exists (c :: a). simpl. f_equal. exact IH.
Qed.

Lemma strip_occurs (s : str) : occurs_in (Str.strip s) s.
Proof.
  unfold Str.strip, Str.rstrip, Str.lstrip.
  destruct (dropwhile_suffix Char.isspace s) as [a Ha].
  destruct (dropwhile_suffix Char.isspace (rev (Str.dropwhile Char.isspace s)))
    as [b Hb].
  apply (f_equal (@rev ascii)) in Hb. rewrite rev_involutive, rev_app_distr in Hb.
  exists a, (rev b). rewrite <- Hb. exact Ha.
Qed.

Lemma fold_keep_within (text : str) (found : list str) :
  forall names,
    Forall (fun x => occurs_in x text) found ->
    Forall (fun x => occurs_in x text) names ->
    Forall (fun x => occurs_in x text) (fold_left keep found names).
Proof.
  induction found as [|x found IH]; intros names Hf Hn; simpl; [exact Hn|].
  inversion Hf; subst. apply IH; [assumption|]. unfold keep.
  destruct ((2 <? List.length (Str.strip x))%nat
            && negb (existsb (str_eqb (Str.strip x)) names)); [|exact Hn].
  apply Forall_app. split; [exact Hn|]. constructor; [|constructor].
  eapply occurs_trans; [apply strip_occurs|assumption].
Qed.

Lemma collect_names_within (patterns : list str) (text : str) :
  forall names out,
    collect_names patterns text names = Ok out ->
    Forall (fun x => occurs_in x text) names ->
    Forall (fun x => occurs_in x text) out.
Proof.
  induction patterns as [|p rest IH]; intros names out H Hn; simpl in H.
  - injection H as <-. exact Hn.
  - destruct (Re.findall p text Re.IGNORECASE) as [found|e] eqn:Hf;
      cbn [bind] in H; [|discriminate].
    eapply IH; [exact H|].
    apply fold_keep_within; [|exact Hn]. eapply findall_within, Hf.
Qed.

(** X15.  The license number and the two names are taken from the text as they
    stand: each value is a contiguous part of the text. *)
Theorem values_occur_in_text (text : str) (b : float) (f : Fields) :
  _extract_fields_from_text text b = Ok f ->
  occurs_in (value (license_number f)) text
  /\ occurs_in (value (name_spouse1 f)) text
  /\ occurs_in (value (name_spouse2 f)) text.
Proof.
  intros H. apply extract_fields_ok in H.
  destruct H as (license & names & date & Hl & Hn & _ & ->).
  cbn [license_number name_spouse1 name_spouse2].
  assert (Hnames : Forall (fun x => occurs_in x text) names).
  { eapply collect_names_within; [exact Hn|constructor]. }
  assert (Hslot : forall n, occurs_in (value (name_field n names b)) text).
  { intros n. unfold name_field.
    destruct (n + 1 <=? List.length names)%nat eqn:Hlen; simpl;
      [|apply occurs_nil].
    rewrite Forall_forall in Hnames. apply Hnames, nth_In.
    apply Nat.leb_le in Hlen. lia. }
  split; [|split; apply Hslot].
  unfold license_field in Hl.
  destruct (first_match license_patterns text) as [[[p m]|]|e] eqn:Hf;
    cbn [bind] in Hl; [| |discriminate].
  - destruct (first_match_found _ _ Hf) as [_ Hs].
    unfold method in Hl. destruct (Re.group m 1) as [g|] eqn:Hg;
      cbn [bind] in Hl; [|discriminate].
    injection Hl as <-. simpl.
    eapply occurs_trans; [apply strip_occurs|].
    eapply search_within; eassumption.
  - injection Hl as <-. apply occurs_nil.
Qed.

Lemma values_occur_in_text_witness :
  exists f,
    _extract_fields_from_text (lit "License No. 77, I, Jane Doe, of Troy") 0.7
    = Ok f
    /\ value (license_number f) = lit "77"
    /\ value (name_spouse1 f) = lit "Jane Doe"
    /\ occurs_in (value (license_number f))
         (lit "License No. 77, I, Jane Doe, of Troy")
    /\ occurs_in (value (name_spouse1 f))
         (lit "License No. 77, I, Jane Doe, of Troy").
Proof.
  eexists. split; [vm_compute; reflexivity|].
  split; [reflexivity|]. split; [reflexivity|].
  destruct (@values_occur_in_text (lit "License No. 77, I, Jane Doe, of Troy")
              0.7 _ eq_refl) as (Hl & Hn & _).
  split; [exact Hl|exact Hn].
Defined.

(** ** A text without digits *)

(** X16.  On a text without a decimal digit no date pattern matches: the
    extractor returns, and the date stays at {"", 0.0}. *)
Theorem no_digit_no_date (text : str) (b : float) :
  Forall (fun c => Char.isdecimal c = false) text ->
  exists f,
    _extract_fields_from_text text b = Ok f
    /\ marriage_date f = no_field.
Proof.
  intros Hno.
  assert (Hnone : first_match date_patterns text = Ok None).
  { destruct (@first_match_returns date_patterns text eq_refl) as [found Hf].
    destruct found as [[p m]|]; [exfalso|exact Hf].
    destruct (first_match_found _ _ Hf) as [Hin Hs].
    destruct (date_patterns_groups Hin) as (r0 & Hr0 & _ & _ & Hb3 & _).
    pose proof (search_binds _ _ 3 Hr0 Hs Hb3) as H3.
    destruct (Re.group m 3) as [g3|] eqn:Hg3; [|contradiction].
    pose proof (search_within _ _ _ Hs Hg3) as Hocc.
    clear r0 Hr0 Hb3 H3.
    assert (Hdigit : exists d, In d g3 /\ Char.isdecimal d = true).
    { pose proof Hin as Hcase.
      destruct Hcase as [E|[E|[E|[E|[]]]]]; subst p;
        group_facts Hin Hs Hg3; digits_of Hall;
        (destruct g3 as [|d g3]; [simpl in Hlo; lia|]);
        inversion Hall; subst; exists d;
        (split; [left; reflexivity|assumption]). }
    destruct Hdigit as (d & Hd & Hdec).
    rewrite Forall_forall in Hno.
    rewrite (Hno d (occurs_char _ Hocc Hd)) in Hdec. discriminate Hdec. }
  unfold _extract_fields_from_text.
  destruct (license_field_returns text b) as [license ->].
  destruct (@collect_names_returns name_patterns text eq_refl []) as [names ->].
  unfold date_field. rewrite Hnone. cbn [bind].
  eexists. split; reflexivity.
Qed.

Lemma no_digit_no_date_witness :
  Forall (fun c => Char.isdecimal c = false)
         (lit "this day of June, I, Jane Doe, of Troy")
  /\ exists f,
       _extract_fields_from_text (lit "this day of June, I, Jane Doe, of Troy")
         0.7 = Ok f
       /\ marriage_date f = no_field.
Proof.
  assert (H : Forall (fun c => Char.isdecimal c = false)
                (lit "this day of June, I, Jane Doe, of Troy")).
  { repeat constructor. }
  split; [exact H|].
  exact (@no_digit_no_date (lit "this day of June, I, Jane Doe, of Troy") 0.7 H).
Defined.
